(** * biogo: FASTA and FASTQ record readers and writers, and the alignment adapter

    A shallow embedding of

    - [fasta.Reader.Read] and [fasta.Writer.Write]   (package fasta),
    - [alignio.Reader.Read] and [alignio.Writer.Write] (package alignio),
    - [fastq.Reader.Read], [fastq.Reader.readHeader], [fastq.Writer.Write] and
      [fastq.Writer.writeHeader] (package fastq),

    followed by the properties of these functions.

    Conventions.  A Go [[]byte] and a Go [string] are both a [list byte]; a
    [nil] slice that the program tests against [nil] is an [option].  A Go [int]
    is a [Z]: every product the programs form is bounded by twice the length of
    a slice plus a width, so no wrap-around is reachable.  A Go function
    returning [(value, error)] where exactly one of the two is set returns a
    [result]; a function returning a byte count next to its error returns the
    pair [(Z * option error)].  A run-time panic is the [Panic] outcome. *)

From Stdlib Require Import Ascii String List ZArith Lia Bool Arith.
Import ListNotations.

Local Open Scope Z_scope.

Set Implicit Arguments.

(** ** Bytes, errors and outcomes *)

(** A byte is an 8-bit character. *)
Abbreviation byte := ascii (only parsing).

(** The bytes of a string literal. *)
Definition bs (s : string) : list byte := list_ascii_of_string s.

Definition LF : byte := "010"%char.
Definition CR : byte := "013"%char.

Definition byte_eqb (a b : byte) : bool := Ascii.eqb a b.

Fixpoint bytes_eqb (a b : list byte) : bool :=
  match a, b with
  | [], [] => true
  | x :: a', y :: b' => byte_eqb x y && bytes_eqb a' b'
  | _, _ => false
  end.

(** [len] of a slice, as a Go [int]. *)
Definition len {A} (l : list A) : Z := Z.of_nat (length l).

(** Go error values.  [EOF] is [io.EOF] (formerly [os.EOF]); [Errno] stands for
    any other failure of an underlying stream; [New msg] is [errors.New(msg)]. *)
Inductive error : Type :=
| EOF
| Errno (code : nat)
| New (msg : string).

Definition error_eqb (a b : error) : bool :=
  match a, b with
  | EOF, EOF => true
  | Errno m, Errno n => Nat.eqb m n
  | New s, New t => String.eqb s t
  | _, _ => false
  end.

(** The errors an underlying stream can report: they are never one of the
    [errors.New] values the packages below create. *)
Inductive srcerr : Type :=
| AtEOF
| Broken (code : nat).

Definition error_of (e : srcerr) : error :=
  match e with
  | AtEOF => EOF
  | Broken c => Errno c
  end.

Inductive result (A : Type) : Type :=
| Ok (a : A)
| Err (e : error)
| Panic (msg : string).

Arguments Ok {A} a.
Arguments Err {A} e.
Arguments Panic {A} msg.

(** ** Package bytes (Go standard library), on ASCII text

    Go's functions decode UTF-8 and use [unicode.IsSpace]; on ASCII input the
    white space bytes are exactly the six below.  (On other input Go also
    counts U+0085, U+00A0 and the further Unicode spaces, which take several
    bytes each; the model is of ASCII text.) *)
Module bytes.

Definition isSpace (c : byte) : bool :=
  match nat_of_ascii c with
  | 9%nat | 10%nat | 11%nat | 12%nat | 13%nat | 32%nat => true
  | _ => false
  end.

Fixpoint TrimLeft (l : list byte) : list byte :=
  match l with
  | [] => []
  | c :: l' => if isSpace c then TrimLeft l' else l
  end.

Definition TrimRight (l : list byte) : list byte := rev (TrimLeft (rev l)).

(** [bytes.TrimSpace]: leading and trailing white space removed. *)
Definition TrimSpace (l : list byte) : list byte := TrimRight (TrimLeft l).

(** [bytes.Fields]: the maximal runs of bytes that are not white space.
    [cur] is the field being read. *)
Fixpoint Fields_from (cur : list byte) (l : list byte) : list (list byte) :=
  match l with
  | [] => match cur with [] => [] | _ => [cur] end
  | c :: l' =>
      if isSpace c
      then match cur with [] => Fields_from [] l' | _ => cur :: Fields_from [] l' end
      else Fields_from (cur ++ [c]) l'
  end.

Definition Fields (l : list byte) : list (list byte) := Fields_from [] l.

(** [bytes.Join]. *)
Fixpoint Join (s : list (list byte)) (sep : list byte) : list byte :=
  match s with
  | [] => []
  | [x] => x
  | x :: s' => x ++ sep ++ Join s' sep
  end.

(** [bytes.IndexAny]: the index of the first byte that occurs in [chars],
    or -1. *)
Fixpoint IndexAny_from (i : Z) (l : list byte) (chars : list byte) : Z :=
  match l with
  | [] => -1
  | c :: l' => if existsb (byte_eqb c) chars then i else IndexAny_from (i + 1) l' chars
  end.

Definition IndexAny (l chars : list byte) : Z := IndexAny_from 0 l chars.

(** [bytes.Compare]: lexicographic order, as -1, 0 or 1. *)
Fixpoint Compare (a b : list byte) : Z :=
  match a, b with
  | [], [] => 0
  | [], _ :: _ => -1
  | _ :: _, [] => 1
  | x :: a', y :: b' =>
      if (nat_of_ascii x <? nat_of_ascii y)%nat then -1
      else if (nat_of_ascii y <? nat_of_ascii x)%nat then 1
      else Compare a' b'
  end.

(** [bytes.HasPrefix]. *)
Fixpoint HasPrefix (s prefix : list byte) : bool :=
  match prefix, s with
  | [], _ => true
  | _ :: _, [] => false
  | p :: prefix', c :: s' => byte_eqb c p && HasPrefix s' prefix'
  end.

End bytes.

(** A slice expression [s[lo:hi]]; [None] is the run-time panic for bounds out
    of range. *)
Definition slice {A} (s : list A) (lo hi : Z) : option (list A) :=
  if (0 <=? lo) && (lo <=? hi) && (hi <=? len s)
  then Some (firstn (Z.to_nat (hi - lo)) (skipn (Z.to_nat lo) s))
  else None.

(** The bytes of the string " \t". *)
Definition blanks : list byte := bs (String " " (String "009" EmptyString)).

(** [s[lo:]] for [0 <= lo <= len(s)]. *)
Definition slice_from {A} (s : list A) (lo : nat) : list A := skipn lo s.

(** ** Package bufio (Go standard library)

    A [bufio.Reader] is an external collaborator.  It is represented by what its
    coming calls are going to return: a [script] of results, and the error
    [fail] it reports ever after.  The element type is the result type of the
    method the client calls ([ReadBytes] for package fasta, [ReadLine] for
    package fastq). *)
Module bufio.

Record Reader (T : Type) : Type := mkReader {
  script : list T;
  fail : srcerr
}.

Arguments mkReader {T} script fail.

(** What [ReadBytes('\n')] returns: the bytes up to and including the
    delimiter; when the stream ends first, the bytes read so far together
    with the error. *)
Definition BytesResult : Type := (list byte * option srcerr)%type.

(** What [ReadLine] returns: the line without its end-of-line bytes, whether
    it is only the beginning of a line longer than the buffer, and the
    error. *)
Definition LineResult : Type := (list byte * bool * option srcerr)%type.

Definition ReadBytes (r : Reader BytesResult) : BytesResult * Reader BytesResult :=
  match script r with
  | [] => (([], Some (fail r)), r)
  | x :: rest => (x, mkReader rest (fail r))
  end.

Definition ReadLine (r : Reader LineResult) : LineResult * Reader LineResult :=
  match script r with
  | [] => (([], false, Some (fail r)), r)
  | x :: rest => (x, mkReader rest (fail r))
  end.

(** The results of [ReadBytes('\n')] over an in-memory stream: one result per
    newline-terminated line, then the unterminated rest with [io.EOF]. *)
Fixpoint bytes_results (cur : list byte) (s : list byte) : list BytesResult :=
  match s with
  | [] => match cur with [] => [] | _ => [(cur, Some AtEOF)] end
  | c :: s' =>
      if byte_eqb c LF
      then (cur ++ [c], None) :: bytes_results [] s'
      else bytes_results (cur ++ [c]) s'
  end.

(** [ReadLine] drops the "\n" and a "\r" right before it. *)
Definition dropCR (l : list byte) : list byte :=
  match rev l with
  | c :: l' => if byte_eqb c CR then rev l' else l
  | [] => l
  end.

(** The results of [ReadLine] over an in-memory stream none of whose lines
    outgrows the buffer: one result per line, the last line needing no
    newline. *)
Fixpoint line_results (cur : list byte) (s : list byte) : list LineResult :=
  match s with
  | [] => match cur with [] => [] | _ => [(cur, false, None)] end
  | c :: s' =>
      if byte_eqb c LF
      then (dropCR cur, false, None) :: line_results [] s'
      else line_results (cur ++ [c]) s'
  end.

(** [bufio.NewReader] over an in-memory stream, for a client that calls
    [ReadBytes('\n')], and for one that calls [ReadLine]. *)
Definition NewReader_bytes (s : list byte) : Reader BytesResult :=
  mkReader (bytes_results [] s) AtEOF.

Definition NewReader_line (s : list byte) : Reader LineResult :=
  mkReader (line_results [] s) AtEOF.

End bufio.

(** ** Package io: the byte sink the writers write to

    The sink accepts [room] more bytes ([None]: any number); a write that does
    not fit writes what fits and fails, as [io.Writer] prescribes.  The
    [bufio.Writer] of package fasta is represented by the sink it flushes
    to. *)
Module io.

Record Writer : Type := mkWriter {
  out : list byte;
  room : option nat
}.

Definition ErrShortWrite : error := New "short write".

Definition Write (w : Writer) (p : list byte) : (Z * option error) * Writer :=
  match room w with
  | None => ((len p, None), mkWriter (out w ++ p) None)
  | Some k =>
      if (length p <=? k)%nat
      then ((len p, None), mkWriter (out w ++ p) (Some (k - length p)%nat))
      else ((Z.of_nat k, Some ErrShortWrite), mkWriter (out w ++ firstn k p) (Some 0%nat))
  end.

(** [io.WriteString] and [bufio.Writer.WriteString]. *)
Definition WriteString (w : Writer) (s : list byte) : (Z * option error) * Writer :=
  Write w s.

(** A sink that never fails. *)
Definition unbounded : Writer := mkWriter [] None.

End io.

(** ** Packages util, seq and alignment: the parts the programs call *)
Module util.

(** Modelled from the spec: [util.Min] is not among the sources; the writer
    uses it for min(W·(i+1), len). *)
Definition Min (a b : Z) : Z := Z.min a b.

End util.

Module seq.

(** Modelled from the spec: the sequence value of packages fasta and alignio,
    a name and a body; [seq.Seq] itself is not among the sources. *)
Record Seq : Type := mkSeq {
  ID : list byte;
  Seq_ : list byte
}.

(** Modelled from the spec: [seq.New(id, seq, meta)] builds the value; a
    [nil] label converts to the empty string. *)
Definition New (id : option (list byte)) (body : list byte) : Seq :=
  mkSeq (match id with Some l => l | None => [] end) body.

Definition Len (s : Seq) : Z := len (Seq_ s).

End seq.

Module alignment.

(** Modelled from the spec: an ordered collection of sequence values,
    insertion order being read order; [alignment.Alignment] is not among the
    sources. *)
Definition Alignment (S : Type) : Type := list S.

(** Modelled from the spec: [Add] appends at the end. *)
Definition Add {S} (a : Alignment S) (s : S) : Alignment S := a ++ [s].

End alignment.

(** ** Package seqio: the single-record interfaces *)
Module seqio.

(** [seqio.Reader]: [Read() (sequence, error)], with the state the call
    leaves behind. *)
Class Reader (R S : Type) : Type := Read : R -> result S * R.

(** [seqio.Writer]: [Write(sequence) (n int, err error)]. *)
Class Writer (W S : Type) : Type := Write : W -> S -> (Z * option error) * W.

End seqio.

(** ** Package fasta *)
Module fasta.

Record Reader : Type := mkReader {
  r : bufio.Reader bufio.BytesResult;
  IDPrefix : list byte;
  SeqPrefix : list byte;
  last : option (list byte)
}.

Definition NewReader (f : bufio.Reader bufio.BytesResult) : Reader :=
  mkReader f (bs ">") (bs "") None.

(** The variables of [Read] that live across iterations: the field
    [self.last] and the locals [label] and [body]. *)
Record locals : Type := mkLocals {
  l_last : option (list byte);
  label : option (list byte);
  body : list byte
}.

Inductive flow : Type :=
| Continue (st : locals)
| Break (st : locals).

(** The [err == nil] branch of the loop body, for the line just read. *)
Definition on_line (idp seqp : list byte) (st : locals) (line : list byte) : flow :=
  let line :=
    if (0 <? len line) && byte_eqb (List.last line LF) CR
    then removelast line else line in
  let line := bytes.TrimSpace line in
  if len line =? 0 then Continue st
  else if bytes.HasPrefix line idp then
    match l_last st with
    | None =>
        let label := Some (slice_from line (length idp)) in
        Continue (mkLocals label label (body st))
    | Some _ =>
        Break (mkLocals (Some (slice_from line (length idp))) (l_last st) (body st))
    end
  else if bytes.HasPrefix line seqp then
    let line := bytes.Join (bytes.Fields (slice_from line (length seqp))) [] in
    Continue (mkLocals (l_last st) (label st) (body st ++ line))
  else Continue st.

(** The statements after the loop. *)
Definition after_loop (st : locals) : result seq.Seq :=
  Ok (seq.New (label st) (body st)).

(** The [else] branch of the loop body: [ReadBytes] returned an error. *)
Definition on_error (st : locals) : result seq.Seq * option (list byte) :=
  match l_last st with
  | Some _ => (after_loop (mkLocals None (label st) (body st)), None)
  | None => (Err EOF, None)
  end.

(** The loop of [Read], over the results [ReadBytes] is going to return. *)
Fixpoint Read_loop (idp seqp : list byte) (sc : list bufio.BytesResult) (fl : srcerr)
    (st : locals) : result seq.Seq * Reader :=
  match sc with
  | [] =>
      let '(res, last') := on_error st in
      (res, mkReader (bufio.mkReader [] fl) idp seqp last')
  | (line, None) :: sc' =>
      match on_line idp seqp st line with
      | Continue st' => Read_loop idp seqp sc' fl st'
      | Break st' =>
          (after_loop st', mkReader (bufio.mkReader sc' fl) idp seqp (l_last st'))
      end
  | (_, Some _) :: sc' =>
      let '(res, last') := on_error st in
      (res, mkReader (bufio.mkReader sc' fl) idp seqp last')
  end.

(** [func (self *Reader) Read() (sequence *seq.Seq, err os.Error)] *)
Definition Read (self : Reader) : result seq.Seq * Reader :=
  Read_loop (IDPrefix self) (SeqPrefix self)
    (bufio.script (r self)) (bufio.fail (r self))
    (mkLocals (last self) (last self) []).

#[global] Instance Reader_seqio : seqio.Reader Reader seq.Seq := Read.

Record Writer : Type := mkWriter {
  w : io.Writer;
  W_IDPrefix : list byte;
  W_SeqPrefix : list byte;
  Width : Z
}.

Definition NewWriter (f : io.Writer) (width : Z) : Writer :=
  mkWriter f (bs ">") (bs "") width.

Definition set_w (self : Writer) (w' : io.Writer) : Writer :=
  mkWriter w' (W_IDPrefix self) (W_SeqPrefix self) (Width self).

(** The [for i := 0; i*self.Width <= s.Len(); i++] loop of [Write], entered
    with the counter [i] and the byte count [n].  [None]: the loop is still
    running when [fuel] iterations are over. *)
Fixpoint Write_loop (fuel : nat) (self : Writer) (s : seq.Seq) (i n : Z)
    : option (result (Z * option error) * Writer) :=
  match fuel with
  | O => None
  | S fuel' =>
      if i * Width self <=? seq.Len s then
        let endLinePos := util.Min (Width self * (i + 1)) (seq.Len s) in
        match slice (seq.Seq_ s) (Width self * i) endLinePos with
        | None => Some (Panic "slice bounds out of range", self)
        | Some chunk =>
            let '((ln, err), w') :=
              io.WriteString (w self) (W_SeqPrefix self ++ chunk ++ [LF]) in
            let n := n + ln in
            match err with
            | Some e => Some (Ok (n, Some e), set_w self w')
            | None => Write_loop fuel' (set_w self w') s (i + 1) n
            end
        end
      else Some (Ok (n, None), self)
  end.

(** [func (self *Writer) Write(s *seq.Seq) (n int, err os.Error)] *)
Definition Write (fuel : nat) (self : Writer) (s : seq.Seq)
    : option (result (Z * option error) * Writer) :=
  let '((n, err), w') :=
    io.WriteString (w self) (W_IDPrefix self ++ seq.ID s ++ [LF]) in
  match err with
  | None => Write_loop fuel (set_w self w') s 0 n
  | Some e => Some (Ok (n, Some e), set_w self w')
  end.

End fasta.

(** ** Package alignio: the collection adapter *)
Module alignio.

Section Adapter.

Context {R W Sq : Type} {reader : seqio.Reader R Sq} {writer : seqio.Writer W Sq}.

(** The [for] loop of [Reader.Read]; [None]: still reading when [fuel]
    calls of the wrapped [Read] are over. *)
Fixpoint Read_loop (fuel : nat) (self : R) (a : alignment.Alignment Sq)
    : option (result (alignment.Alignment Sq) * R) :=
  match fuel with
  | O => None
  | S fuel' =>
      match seqio.Read self with
      | (Ok s, self') => Read_loop fuel' self' (alignment.Add a s)
      | (Err err, self') =>
          if error_eqb err EOF then Some (Ok a, self') else Some (Err err, self')
      | (Panic msg, self') => Some (Panic msg, self')
      end
  end.

(** [func (self *Reader) Read() (a *alignment.Alignment, err os.Error)] *)
Definition Read (fuel : nat) (self : R) : option (result (alignment.Alignment Sq) * R) :=
  Read_loop fuel self [].

(** The [for _, s := range *a] loop of [Writer.Write], and the statement
    after it. *)
Fixpoint Write_loop (self : W) (a : alignment.Alignment Sq) (n : Z)
    : result (Z * option error) * W :=
  match a with
  | [] => (Panic "cannot reach", self)
  | s :: a' =>
      let '((c, err), self') := seqio.Write self s in
      let n := n + c in
      match err with
      | Some e => (Ok (n, Some e), self')
      | None => Write_loop self' a' n
      end
  end.

(** [func (self *Writer) Write(a *alignment.Alignment) (n int, err os.Error)] *)
Definition Write (self : W) (a : alignment.Alignment Sq) : result (Z * option error) * W :=
  Write_loop self a 0.

End Adapter.

End alignio.

(** ** Package alphabet: letters, quality letters and the quality codec *)
Module alphabet.

Abbreviation Letter := ascii (only parsing).

(** Modelled from the spec: the quality codec is an opaque mapping between
    raw bytes and scores, one per named encoding; [alphabet.Encoding],
    [alphabet.Qphred], [DecodeToQphred] and [Encode] are not among the
    sources, so they are the fields of this interface.  [Qzero] is the zero
    value of a score, [None_] is [alphabet.None]. *)
Class Codec : Type := {
  Encoding : Type;
  Qphred : Type;
  Qzero : Qphred;
  Sanger : Encoding;
  None_ : Encoding;
  DecodeToQphred : Encoding -> byte -> Qphred;
  Encode : Qphred -> Encoding -> byte
}.

Record QLetter {codec : Codec} : Type := mkQLetter {
  L : Letter;
  Q : Qphred
}.

Arguments mkQLetter {codec} L Q.

End alphabet.

(** ** Package fastq *)
Module fastq.

Import alphabet.

Section WithCodec.

Context {codec : Codec}.

(** Modelled from the spec: the sequence value of package fastq
    ([seq.Sequence], [seqio.SequenceAppender]) with its name, description
    and quality letters; [Encoder] is [Some e] when the value implements
    the [Encoder] interface with [Encoding() = e]. *)
Record Sequence : Type := mkSequence {
  Name : list byte;
  Description : list byte;
  QLetters : list QLetter;
  Encoder : option Encoding
}.

(** Modelled from the spec: cloning yields a fresh value of the same
    concrete shape; here it is a copy of the template, with what the
    template holds. *)
Definition Clone (s : Sequence) : Sequence := s.

Definition SetName (s : Sequence) (name : list byte) : Sequence :=
  mkSequence name (Description s) (QLetters s) (Encoder s).

Definition SetDescription (s : Sequence) (desc : list byte) : Sequence :=
  mkSequence (Name s) desc (QLetters s) (Encoder s).

(** Modelled from the spec: bulk quality-letter append. *)
Definition AppendQLetters (s : Sequence) (a : list QLetter) : Sequence :=
  mkSequence (Name s) (Description s) (QLetters s ++ a) (Encoder s).

Record Reader : Type := mkReader {
  r : bufio.Reader bufio.LineResult;
  t : Sequence;
  enc : Encoding
}.

Definition NewReader (r : bufio.Reader bufio.LineResult) (template : Sequence) : Reader :=
  let enc :=
    match Encoder template with
    | Some e => e
    | None => None_
    end in
  mkReader r template enc.

(** [line[lo:hi]] for [lo <= hi <= len(line)]. *)
Definition sub (line : list byte) (lo hi : nat) : list byte :=
  firstn (hi - lo) (skipn lo line).

(** [func (r *Reader) readHeader(line []byte) seqio.SequenceAppender].
    It is called on lines that start with '@', so [fieldMark] is never 0. *)
Definition readHeader (template : Sequence) (line : list byte) : Sequence :=
  let s := Clone template in
  let fieldMark := bytes.IndexAny line blanks in
  if fieldMark <? 0 then SetName s (slice_from line 1)
  else
    let s := SetName s (sub line 1 (Z.to_nat fieldMark)) in
    SetDescription s (slice_from line (Z.to_nat (fieldMark + 1))).

(** The locals of [Read] that live across iterations. *)
Record locals : Type := mkLocals {
  line : list byte;
  label : list byte;
  seqBuff : list QLetter;
  l_t : option Sequence;
  inQual : bool
}.

Definition init : locals := mkLocals [] [] [] None false.

Inductive flow : Type :=
| Continue (st : locals)
| Return (res : result Sequence).

Definition ErrNoHeader : error :=
  New "fastq: no header line parsed before +line in fastq format".
Definition ErrQualHeader : error :=
  New "fastq: quality header does not match sequence header".
Definition ErrLength : error :=
  New "fastq: sequence/quality length mismatch".

(** [seqBuff = make([]alphabet.QLetter, len(line))] followed by the loop
    that stores the letters. *)
Definition letters_of (line : list byte) : list QLetter :=
  map (fun c => mkQLetter c Qzero) line.

(** [for i := range line { seqBuff[i].Q = r.enc.DecodeToQphred(line[i]) }],
    entered with [len(line) == len(seqBuff)]. *)
Fixpoint set_quals (e : Encoding) (seqBuff : list QLetter) (line : list byte)
    : list QLetter :=
  match seqBuff, line with
  | ql :: seqBuff', c :: line' =>
      mkQLetter (L ql) (DecodeToQphred e c) :: set_quals e seqBuff' line'
  | _, _ => seqBuff
  end.

(** The loop body of [Read] after a successful [ReadLine]. *)
Definition on_line (self_t : Sequence) (self_enc : Encoding) (st : locals)
    (buff : list byte) (isPrefix : bool) : flow :=
  let line := line st ++ buff in
  if isPrefix
  then Continue (mkLocals line (label st) (seqBuff st) (l_t st) (inQual st))
  else
    let line := bytes.TrimSpace line in
    if len line =? 0
    then Continue (mkLocals line (label st) (seqBuff st) (l_t st) (inQual st))
    else
      let line0 := hd "000"%char line in
      if negb (inQual st) && byte_eqb line0 "@"%char then
        let t := readHeader self_t line in
        Continue (mkLocals [] line (seqBuff st) (Some t) (inQual st))
      else if negb (inQual st) && byte_eqb line0 "+"%char then
        if len (label st) =? 0 then Return (Err ErrNoHeader)
        else if (1 <? len line)
                && negb (bytes.Compare (slice_from (label st) 1) (slice_from line 1) =? 0)
        then Return (Err ErrQualHeader)
        else Continue (mkLocals [] (label st) (seqBuff st) (l_t st) true)
      else if negb (inQual st) then
        let line := bytes.Join (bytes.Fields line) [] in
        Continue (mkLocals [] (label st) (letters_of line) (l_t st) (inQual st))
      else
        let line := bytes.Join (bytes.Fields line) [] in
        if negb (len line =? len (seqBuff st)) then Return (Err ErrLength)
        else
          let seqBuff := set_quals self_enc (seqBuff st) line in
          match l_t st with
          | None => Return (Panic "invalid memory address or nil pointer dereference")
          | Some t => Return (Ok (AppendQLetters t seqBuff))
          end.

(** The loop of [Read], over the results [ReadLine] is going to return. *)
Fixpoint Read_loop (self_t : Sequence) (self_enc : Encoding)
    (sc : list bufio.LineResult) (fl : srcerr) (st : locals)
    : result Sequence * bufio.Reader bufio.LineResult :=
  match sc with
  | [] => (Err (error_of fl), bufio.mkReader [] fl)
  | (_, _, Some err) :: sc' => (Err (error_of err), bufio.mkReader sc' fl)
  | (buff, isPrefix, None) :: sc' =>
      match on_line self_t self_enc st buff isPrefix with
      | Continue st' => Read_loop self_t self_enc sc' fl st'
      | Return res => (res, bufio.mkReader sc' fl)
      end
  end.

(** [func (r *Reader) Read() (seq.Sequence, error)] *)
Definition Read (self : Reader) : result Sequence * Reader :=
  let '(res, r') :=
    Read_loop (t self) (enc self) (bufio.script (r self)) (bufio.fail (r self)) init in
  (res, mkReader r' (t self) (enc self)).

#[global] Instance Reader_seqio : seqio.Reader Reader Sequence := Read.

Record Writer : Type := mkWriter {
  w : io.Writer;
  QID : bool
}.

Definition NewWriter (w : io.Writer) : Writer := mkWriter w false.

(** [_n, err = write; if n += _n; err != nil { return }], then the rest of
    the function. *)
Definition and_then (n : Z) (x : (Z * option error) * io.Writer)
    (k : Z -> io.Writer -> (Z * option error) * io.Writer)
    : (Z * option error) * io.Writer :=
  let '((_n, err), w') := x in
  let n := n + _n in
  match err with
  | Some e => ((n, Some e), w')
  | None => k n w'
  end.

(** [func (w *Writer) writeHeader(prefix byte, s seq.Sequence) (n int, err error)] *)
Definition writeHeader (w : io.Writer) (prefix : byte) (s : Sequence)
    : (Z * option error) * io.Writer :=
  and_then 0 (io.Write w [prefix]) (fun n w =>
  and_then n (io.WriteString w (Name s)) (fun n w =>
  let desc := Description s in
  if negb (len desc =? 0) then
    and_then n (io.Write w (bs " ")) (fun n w =>
    and_then n (io.WriteString w desc) (fun n w =>
    let '((_n, err), w') := io.Write w [LF] in
    ((n + _n, err), w')))
  else
    let '((_n, err), w') := io.Write w [LF] in
    ((n + _n, err), w'))).

(** [for i := 0; i < s.Len(); i++ { _n, err = w.w.Write([]byte{f(s.At(i))}); ... }]
    over the letters still to write, then the rest of the function. *)
Fixpoint write_each (f : QLetter -> byte) (ql : list QLetter) (n : Z) (w : io.Writer)
    (k : Z -> io.Writer -> (Z * option error) * io.Writer)
    : (Z * option error) * io.Writer :=
  match ql with
  | [] => k n w
  | q :: ql' => and_then n (io.Write w [f q]) (fun n w => write_each f ql' n w k)
  end.

(** [func (w *Writer) Write(s seq.Sequence) (n int, err error)] *)
Definition Write (self : Writer) (s : Sequence) : (Z * option error) * Writer :=
  let enc :=
    match Encoder s with
    | Some e => e
    | None => Sanger
    end in
  let '(res, w') :=
    and_then 0 (writeHeader (w self) "@"%char s) (fun n w =>
    write_each (fun q => L q) (QLetters s) n w (fun n w =>
    and_then n (io.Write w [LF]) (fun n w =>
    (if QID self
     then and_then n (writeHeader w "+"%char s)
     else and_then n (io.Write w (bs "+" ++ [LF]))) (fun n w =>
    write_each (fun q => Encode (Q q) enc) (QLetters s) n w (fun n w =>
    and_then n (io.Write w [LF]) (fun n w =>
    ((n, None), w))))))) in
  (res, mkWriter w' (QID self)).

#[global] Instance Writer_seqio : seqio.Writer Writer Sequence := Write.

End WithCodec.

End fastq.

(** ** A codec to run the programs with

    The offset-33 scheme: a score is a number, its byte is the score plus 33
    (capped at '~'); the encoding [Raw] stores the score itself. *)
Module phred33.

Inductive scheme : Type :=
| Offset33
| Raw.

Definition decode (e : scheme) (c : byte) : nat :=
  match e with
  | Offset33 => (nat_of_ascii c - 33)%nat
  | Raw => nat_of_ascii c
  end.

Definition encode (q : nat) (e : scheme) : byte :=
  match e with
  | Offset33 => if (q <=? 93)%nat then ascii_of_nat (q + 33) else "~"%char
  | Raw => ascii_of_nat q
  end.

#[global] Instance codec : alphabet.Codec := {|
  alphabet.Encoding := scheme;
  alphabet.Qphred := nat;
  alphabet.Qzero := 0%nat;
  alphabet.Sanger := Offset33;
  alphabet.None_ := Raw;
  alphabet.DecodeToQphred := decode;
  alphabet.Encode := encode
|}.

(** An empty template that prefers the offset-33 scheme. *)
Definition template : fastq.Sequence :=
  fastq.mkSequence [] [] [] (Some Offset33).

(** A sequence value that prefers the offset-33 scheme, from its name, its
    description, its letters and their scores. *)
Definition record (name desc letters : string) (scores : list nat) : fastq.Sequence :=
  fastq.mkSequence (bs name) (bs desc)
    (map (fun x => alphabet.mkQLetter (fst x) (snd x)) (combine (bs letters) scores))
    (Some Offset33).

End phred33.

(** ** Vocabulary of the properties *)

(** [reads r ss e r']: the coming calls of the wrapped [Read] return the
    sequences [ss], one after the other, and then fail with [e], leaving the
    reader [r']. *)
Inductive reads {R Sq : Type} {reader : seqio.Reader R Sq} : R -> list Sq -> error -> R -> Prop :=
| reads_fail : forall r e r',
    seqio.Read r = (Err e, r') -> reads r [] e r'
| reads_more : forall r s r1 ss e r',
    seqio.Read r = (Ok s, r1) -> reads r1 ss e r' -> reads r (s :: ss) e r'.

(** [writes w a n w']: the wrapped [Write] succeeds on every element of [a] in
    turn, for a total of [n] bytes, leaving the writer [w']. *)
Inductive writes {W Sq : Type} {writer : seqio.Writer W Sq} : W -> list Sq -> Z -> W -> Prop :=
| writes_nil : forall w, writes w [] 0 w
| writes_cons : forall w s c w1 a n w',
    seqio.Write w s = ((c, None), w1) -> writes w1 a n w' -> writes w (s :: a) (c + n) w'.

(** The body line number [i] of a FASTA record written at width [W]: the bytes
    at offsets W·i (included) to min(W·(i+1), len) (excluded). *)
Definition chunk (W : Z) (body : list byte) (i : nat) : list byte :=
  firstn (Z.to_nat (Z.min (W * (Z.of_nat i + 1)) (len body) - W * Z.of_nat i))
         (skipn (Z.to_nat (W * Z.of_nat i)) body).

(** The indices [i] with W·i <= len, for W > 0: 0, 1, ..., len / W. *)
Definition chunk_indices (W : Z) (body : list byte) : list nat :=
  List.seq 0 (S (Z.to_nat (len body / W))).

(** What the writer emits for one body line. *)
Definition body_line (prefix : list byte) (c : list byte) : list byte :=
  prefix ++ c ++ [LF].

(** The bytes of a text given by its lines, each followed by "\n". *)
Fixpoint text (ls : list string) : list byte :=
  match ls with
  | [] => []
  | l :: ls' => bs l ++ LF :: text ls'
  end.

(** The two-record stream ">a\nACGT\n>b\nTTTT\n". *)
Definition two_records : list byte :=
  text [">a"; "ACGT"; ">b"; "TTTT"]%string.


(** The bytes of a line that are not white space, in order. *)
Definition strip (l : list byte) : list byte :=
  filter (fun c => negb (bytes.isSpace c)) l.

Definition whole (l : list byte) : bufio.LineResult := (l, false, None).





(** The locals that can arise: in the quality section a header has been
    read, and a header that has been read left its sequence value. *)
Definition consistent {codec : alphabet.Codec} (st : fastq.locals) : Prop :=
  (fastq.inQual st = true -> fastq.label st <> [])
  /\ (fastq.label st <> [] -> exists s, fastq.l_t st = Some s).

(** The bytes a FASTQ header line carries after its sigil: the name, and the
    description after a space when there is one. *)
Definition header_text {codec : alphabet.Codec} (s : fastq.Sequence) : list byte :=
  fastq.Name s ++
  (match fastq.Description s with
   | [] => []
   | _ :: _ => bs " " ++ fastq.Description s
   end).

(** The bytes of a FASTQ record as the writer lays them out. *)
Definition record_bytes {codec : alphabet.Codec} (qid : bool) (enc : alphabet.Encoding)
    (s : fastq.Sequence) : list byte :=
  ("@"%char :: header_text s ++ [LF])
  ++ (map (fun q => alphabet.L q) (fastq.QLetters s) ++ [LF])
  ++ ("+"%char :: (if qid then header_text s else []) ++ [LF])
  ++ (map (fun q => alphabet.Encode (alphabet.Q q) enc) (fastq.QLetters s) ++ [LF]).

(** A byte of plain text: ASCII and not white space. *)
Definition graphic (c : byte) : bool :=
  (nat_of_ascii c <? 128)%nat && negb (bytes.isSpace c).

(** A sequence value the FASTQ text format can carry, for the encoding [enc]:
    the name is plain text; the description is ASCII text on one line that
    does not end in white space; there is at least one letter, the letters
    are plain text and the first is neither '@' nor '+'; the bytes of the
    encoded qualities are plain text. *)
Definition representable {codec : alphabet.Codec} (enc : alphabet.Encoding)
    (s : fastq.Sequence) : Prop :=
  Forall (fun c => graphic c = true) (fastq.Name s)
  /\ Forall (fun c => (nat_of_ascii c < 128)%nat /\ c <> LF) (fastq.Description s)
  /\ bytes.isSpace (List.last (fastq.Description s) "@"%char) = false
  /\ fastq.QLetters s <> []
  /\ Forall (fun q => graphic (alphabet.L q) = true) (fastq.QLetters s)
  /\ (forall q, hd_error (fastq.QLetters s) = Some q ->
                alphabet.L q <> "@"%char /\ alphabet.L q <> "+"%char)
  /\ Forall (fun q => graphic (alphabet.Encode (alphabet.Q q) enc) = true)
            (fastq.QLetters s).

(** A line that [ReadLine] and [bytes.TrimSpace] hand on unchanged: it starts
    and ends with a byte that is not white space and holds no newline. *)
Definition clean (l : list byte) : Prop :=
  bytes.isSpace (hd " "%char l) = false
  /\ bytes.isSpace (List.last l " "%char) = false
  /\ Forall (fun c => c <> LF) l.

(** What a FASTA reader still has to go through: the results its
    [ReadBytes] has in store, and the pending label. *)
Definition fasta_pending (rd : fasta.Reader) : nat :=
  length (bufio.script (fasta.r rd))
  + match fasta.last rd with
    | Some _ => 1
    | None => 0
    end.

(** Whether a complete line is blank for the FASTQ reader. *)
Definition is_blank (l : list byte) : bool :=
  match bytes.TrimSpace l with
  | [] => true
  | _ :: _ => false
  end.

(** The bytes of a FASTA record as the writer lays them out at width [W]:
    the header line, then one line per chunk. *)
Definition fasta_text (idp seqp : list byte) (W : Z) (s : seq.Seq) : list byte :=
  (idp ++ seq.ID s ++ [LF])
  ++ concat (map (fun j => body_line seqp (chunk W (seq.Seq_ s) j))
               (chunk_indices W (seq.Seq_ s))).



(** What the FASTQ reader with template [t] and encoding [enc] makes of the
    text of the sequence [s]: the name, the description and the letters of
    [s], each quality encoded and decoded, in a value shaped like [t]. *)
Definition read_back {codec : alphabet.Codec} (enc : alphabet.Encoding)
    (t s : fastq.Sequence) : fastq.Sequence :=
  fastq.mkSequence (fastq.Name s) (fastq.Description s)
    (map (fun q => alphabet.mkQLetter (alphabet.L q)
                     (alphabet.DecodeToQphred enc (alphabet.Encode (alphabet.Q q) enc)))
         (fastq.QLetters s))
    (fastq.Encoder t).

(** A sequence value the FASTA text format can carry with the default
    prefixes: the name is ASCII text on one line that does not end in white
    space; the body is plain text without '>'. *)
Definition fasta_plain (s : seq.Seq) : Prop :=
  Forall (fun c => (nat_of_ascii c < 128)%nat /\ c <> LF) (seq.ID s)
  /\ bytes.isSpace (List.last (seq.ID s) ">"%char) = false
  /\ Forall (fun c => graphic c = true /\ c <> ">"%char) (seq.Seq_ s).

(** A line as [ReadBytes] returns it: with its newline and no error. *)
Definition terminated (l : list byte) : bufio.BytesResult := (l ++ [LF], None).

(** The end of a script of [ReadBytes] results: nothing, or one result that
    carries an error. *)
Definition error_end (E : list bufio.BytesResult) : Prop :=
  E = [] \/ exists x e, E = [(x, Some e)].

(** Two FASTA readers that differ at most in how their streams end: the same
    prefixes and pending label, the same results in store up to a last result
    that carries an error. *)
Definition same_lines (rd1 rd2 : fasta.Reader) : Prop :=
  fasta.IDPrefix rd1 = fasta.IDPrefix rd2
  /\ fasta.SeqPrefix rd1 = fasta.SeqPrefix rd2
  /\ fasta.last rd1 = fasta.last rd2
  /\ bufio.fail (fasta.r rd1) = bufio.fail (fasta.r rd2)
  /\ exists C E1 E2,
       bufio.script (fasta.r rd1) = C ++ E1
       /\ bufio.script (fasta.r rd2) = C ++ E2
       /\ error_end E1 /\ error_end E2.

(** The result of [ReadBytes] at the end of an in-memory stream whose
    unterminated rest is [p]. *)
Definition rest_result (p : list byte) : list bufio.BytesResult :=
  match p with
  | [] => []
  | _ :: _ => [(p, Some AtEOF)]
  end.

(** What a FASTQ reader with template [t] and encoding [encr] makes of the
    text of the sequence [s] written with the encoding [encw]. *)
Definition read_as {codec : alphabet.Codec} (encw encr : alphabet.Encoding)
    (t s : fastq.Sequence) : fastq.Sequence :=
  fastq.mkSequence (fastq.Name s) (fastq.Description s)
    (map (fun q => alphabet.mkQLetter (alphabet.L q)
                     (alphabet.DecodeToQphred encr (alphabet.Encode (alphabet.Q q) encw)))
         (fastq.QLetters s))
    (fastq.Encoder t).


(** Two results of [ReadBytes] that the FASTA reader cannot tell apart: both
    carry an error, or neither does and the lines are the same once leading
    and trailing white space is removed. *)
Definition same_trimmed (x y : bufio.BytesResult) : Prop :=
  match snd x, snd y with
  | None, None => bytes.TrimSpace (fst x) = bytes.TrimSpace (fst y)
  | Some _, Some _ => True
  | _, _ => False
  end.

(** Two FASTA readers with the same prefixes and pending label, whose streams
    agree result by result up to white space around the lines. *)
Definition same_text (rd1 rd2 : fasta.Reader) : Prop :=
  fasta.IDPrefix rd1 = fasta.IDPrefix rd2
  /\ fasta.SeqPrefix rd1 = fasta.SeqPrefix rd2
  /\ fasta.last rd1 = fasta.last rd2
  /\ Forall2 same_trimmed (bufio.script (fasta.r rd1)) (bufio.script (fasta.r rd2)).

(** * Properties *)

Unset Implicit Arguments.

(** ** The collection adapter *)

Section AdapterFacts.

Context {R W Sq : Type} {reader : seqio.Reader R Sq} {writer : seqio.Writer W Sq}.

Lemma alignio_Read_loop_reads (r : R) (ss : list Sq) (e : error) (r' : R) :
  reads r ss e r' ->
  forall (fuel : nat) (a : alignment.Alignment Sq),
    (length ss < fuel)%nat ->
    alignio.Read_loop fuel r a
    = Some (if error_eqb e EOF then Ok (a ++ ss) else Err e, r').
Proof.
  induction 1 as [r e r' Hrd | r s r1 ss e r' Hrd Hrest IH]; intros fuel a Hfuel.
  - destruct fuel as [|fuel]; [simpl in Hfuel; lia|].
    simpl. rewrite Hrd, app_nil_r.
    destruct (error_eqb e EOF); reflexivity.
  - destruct fuel as [|fuel]; [simpl in Hfuel; lia|].
    simpl. rewrite Hrd.
    rewrite IH by (simpl in Hfuel; lia).
    unfold alignment.Add. rewrite <- app_assoc. reflexivity.
Qed.

(** When every element write succeeds the loop of the bulk write runs to its
    end, and what follows the loop is the panic. *)
Lemma alignio_Write_loop_writes (w : W) (a : list Sq) (n : Z) (w' : W) :
  writes w a n w' ->
  forall n0, alignio.Write_loop w a n0 = (Panic "cannot reach", w').
Proof.
  induction 1 as [w | w s c w1 a n w' Hwr Hrest IH]; intros n0.
  - reflexivity.
  - simpl. rewrite Hwr. apply IH.
Qed.

(** When an element write fails after a run of successful ones, the bulk
    write returns that error with the bytes written so far. *)
Lemma alignio_Write_loop_abort (w : W) (a : list Sq) (n : Z) (w1 : W)
      (s : Sq) (c : Z) (e : error) (w2 : W) (rest : list Sq) :
  writes w a n w1 ->
  seqio.Write w1 s = ((c, Some e), w2) ->
  forall n0, alignio.Write_loop w (a ++ s :: rest) n0 = (Ok (n0 + n + c, Some e), w2).
Proof.
  intros Hws Hfail.
  induction Hws as [w | w s0 c0 w1 a n w' Hwr Hrest IH]; intros n0.
  - simpl. rewrite Hfail. f_equal. f_equal. f_equal. lia.
  - simpl. rewrite Hwr. rewrite (IH Hfail). f_equal. f_equal. f_equal. lia.
Qed.

End AdapterFacts.

(** C1 (the code departs from the claim).  Bulk write of the collection
    adapter: when every element write succeeds the function does not return
    the accumulated total; control leaves the [range] loop and reaches
    [panic("cannot reach")].  This holds for the empty collection over any
    wrapped writer, and here for a one-record collection written through the
    FASTQ writer to a sink that never fails. *)
Theorem C1_bulk_write_panics_after_loop :
  (forall (W Sq : Type) (writer : seqio.Writer W Sq) (self : W),
      alignio.Write self (@nil Sq) = (Panic "cannot reach", self))
  /\ fst (alignio.Write (fastq.NewWriter io.unbounded)
            [phred33.record "id" "" "A" [0%nat]])
     = Panic "cannot reach".
Proof.
  split.
  - intros W Sq writer self. reflexivity.
  - vm_compute. reflexivity.
Qed.

(** C8.  Bulk read of the collection adapter: if the coming calls of the
    wrapped [Read] return the sequences [ss] and then fail with [e], the bulk
    read (given fuel for these calls) returns the collection [ss], in read
    order and with no error, when [e] is the end of the stream, and returns no
    collection and the error [e] otherwise.  With [ss] empty: an empty stream
    gives the empty collection and no error. *)
Theorem C8_bulk_read
    (R Sq : Type) (reader : seqio.Reader R Sq)
    (r : R) (ss : list Sq) (e : error) (r' : R) (fuel : nat) :
  reads r ss e r' ->
  (length ss < fuel)%nat ->
  alignio.Read fuel r = Some (if error_eqb e EOF then Ok ss else Err e, r').
Proof.
  intros Hreads Hfuel. unfold alignio.Read.
  rewrite (alignio_Read_loop_reads _ _ _ _ Hreads) by exact Hfuel.
  reflexivity.
Qed.

(** The bulk read of the two-record FASTA stream, as an instance of C8. *)
Lemma C8_bulk_read_witness :
  exists r',
    alignio.Read 3 (fasta.NewReader (bufio.NewReader_bytes two_records))
    = Some (Ok [seq.mkSeq (bs "a") (bs "ACGT"); seq.mkSeq (bs "b") (bs "TTTT")], r').
Proof.
  eexists.
  refine (C8_bulk_read _ _ _ _ _ EOF _ 3%nat _ _).
  - eapply reads_more; [vm_compute; reflexivity|].
    eapply reads_more; [vm_compute; reflexivity|].
    eapply reads_fail. vm_compute. reflexivity.
  - simpl. lia.
Defined.

(** ** The FASTA reader *)

(** The loop of [fasta.Reader.Read], one call of [ReadBytes] at a time. *)
Lemma fasta_Read_loop_step (idp seqp : list byte) (rd : bufio.Reader bufio.BytesResult)
      (st : fasta.locals) :
  fasta.Read_loop idp seqp (bufio.script rd) (bufio.fail rd) st
  = match bufio.ReadBytes rd with
    | ((line, None), rd') =>
        match fasta.on_line idp seqp st line with
        | fasta.Continue st' =>
            fasta.Read_loop idp seqp (bufio.script rd') (bufio.fail rd') st'
        | fasta.Break st' =>
            (fasta.after_loop st', fasta.mkReader rd' idp seqp (fasta.l_last st'))
        end
    | ((_, Some _), rd') =>
        (fst (fasta.on_error st), fasta.mkReader rd' idp seqp (snd (fasta.on_error st)))
    end.
Proof.
  destruct rd as [sc fl]. unfold bufio.ReadBytes. simpl.
  destruct sc as [|[line [e|]] sc']; simpl.
  - destruct (fasta.on_error st); reflexivity.
  - destruct (fasta.on_error st); reflexivity.
  - destruct (fasta.on_line idp seqp st line); reflexivity.
Qed.




(** ** The FASTA writer *)

Lemma fasta_Write_loop_S (fuel : nat) (self : fasta.Writer) (s : seq.Seq) (i n : Z) :
  fasta.Write_loop (S fuel) self s i n
  = if i * fasta.Width self <=? seq.Len s then
      match slice (seq.Seq_ s) (fasta.Width self * i)
                  (util.Min (fasta.Width self * (i + 1)) (seq.Len s)) with
      | None => Some (Panic "slice bounds out of range", self)
      | Some c =>
          let '((ln, err), w') :=
            io.WriteString (fasta.w self) (fasta.W_SeqPrefix self ++ c ++ [LF]) in
          match err with
          | Some e => Some (Ok (n + ln, Some e), fasta.set_w self w')
          | None => fasta.Write_loop fuel (fasta.set_w self w') s (i + 1) (n + ln)
          end
      end
    else Some (Ok (n, None), self).
Proof. reflexivity. Qed.

(** Inside the loop the slice expression is in range and is the chunk. *)
Lemma slice_chunk (W : Z) (body : list byte) (i : nat) :
  0 < W ->
  Z.of_nat i * W <= len body ->
  slice body (W * Z.of_nat i) (util.Min (W * (Z.of_nat i + 1)) (len body))
  = Some (chunk W body i).
Proof.
  intros HW Hi. unfold slice, util.Min, chunk.
  replace (0 <=? W * Z.of_nat i) with true by (symmetry; apply Z.leb_le; nia).
  replace (W * Z.of_nat i <=? Z.min (W * (Z.of_nat i + 1)) (len body)) with true
    by (symmetry; apply Z.leb_le; apply Z.min_glb; nia).
  replace (Z.min (W * (Z.of_nat i + 1)) (len body) <=? len body) with true
    by (symmetry; apply Z.leb_le; apply Z.le_min_r).
  reflexivity.
Qed.

(** The loop condition, for a positive width, in terms of the quotient. *)
Lemma loop_condition (W : Z) (n : Z) (i : nat) :
  0 < W -> 0 <= n ->
  (Z.of_nat i * W <= n <-> (i < S (Z.to_nat (n / W)))%nat).
Proof.
  intros HW Hn.
  assert (Hq : 0 <= n / W) by (apply Z.div_pos; lia).
  assert (Hlo : W * (n / W) <= n) by (apply Z.mul_div_le; lia).
  assert (Hhi : n < W * Z.succ (n / W)) by (apply Z.mul_succ_div_gt; lia).
  split; intros H.
  - assert (Z.of_nat i < Z.succ (n / W)) by nia. lia.
  - assert (Z.of_nat i <= n / W) by lia. nia.
Qed.

Lemma fasta_Write_loop_run (W : Z) (idp seqp id body : list byte) :
  0 < W ->
  forall (k i : nat) (out0 : list byte) (n : Z) (fuel : nat),
    (i + k = S (Z.to_nat (len body / W)))%nat ->
    (k < fuel)%nat ->
    let emitted := concat (map (fun j => body_line seqp (chunk W body j)) (List.seq i k)) in
    fasta.Write_loop fuel (fasta.mkWriter (io.mkWriter out0 None) idp seqp W)
      (seq.mkSeq id body) (Z.of_nat i) n
    = Some (Ok (n + len emitted, None),
            fasta.mkWriter (io.mkWriter (out0 ++ emitted) None) idp seqp W).
Proof.
  intros HW k.
  assert (Hlen : 0 <= len body) by (unfold len; lia).
  induction k as [|k IH]; intros i out0 n fuel Hik Hfuel emitted;
    (destruct fuel as [|fuel]; [lia|]); rewrite fasta_Write_loop_S;
    unfold seq.Len; simpl fasta.Width; simpl seq.Seq_; simpl fasta.w;
    simpl fasta.W_SeqPrefix.
  - replace (Z.of_nat i * W <=? len body) with false.
    + subst emitted. simpl. rewrite app_nil_r.
      replace (n + len (@nil byte)) with n by (unfold len; simpl; lia).
      reflexivity.
    + symmetry. apply Z.leb_gt.
      destruct (Z.le_gt_cases (Z.of_nat i * W) (len body)) as [Hle|Hgt]; [|exact Hgt].
      apply (loop_condition _ _ i HW Hlen) in Hle. lia.
  - replace (Z.of_nat i * W <=? len body) with true.
    + rewrite slice_chunk; [|exact HW|apply (loop_condition _ _ i HW Hlen); lia].
      unfold io.WriteString, io.Write. simpl io.room. cbv iota beta.
      unfold fasta.set_w. simpl.
      replace (Z.of_nat i + 1) with (Z.of_nat (S i)) by lia.
      rewrite IH by lia.
      subst emitted. cbn [List.seq map concat].
      set (rest := concat (map _ (List.seq (S i) k))).
      unfold body_line, len.
      rewrite !length_app, <- !app_assoc. simpl.
      do 4 f_equal. lia.
    + symmetry. apply Z.leb_le. apply (loop_condition _ _ i HW Hlen). lia.
Qed.

(** C4.  For a width W > 0 the FASTA writer, writing to a sink that does not
    fail, emits the header line and then one prefixed, newline-terminated body
    line per index [i] with W·i <= len(body), in increasing order; line [i]
    holds the body bytes at offsets W·i to min(W·(i+1), len) (the slice
    expression is in range there); so at least one body line is emitted, and
    for a body of length zero it is the empty line.  The byte count returned
    is the number of bytes emitted and the error is nil. *)
Theorem C4_fasta_write_chunks
    (W : Z) (idp seqp id body out0 : list byte) (fuel : nat) :
  0 < W ->
  (S (S (Z.to_nat (len body / W))) <= fuel)%nat ->
  let lines := map (chunk W body) (chunk_indices W body) in
  let emitted := (idp ++ id ++ [LF]) ++ concat (map (body_line seqp) lines) in
  fasta.Write fuel (fasta.mkWriter (io.mkWriter out0 None) idp seqp W) (seq.mkSeq id body)
  = Some (Ok (len emitted, None),
          fasta.mkWriter (io.mkWriter (out0 ++ emitted) None) idp seqp W)
  /\ (forall i : nat, In i (chunk_indices W body) <-> Z.of_nat i * W <= len body)
  /\ (forall i : nat,
         Z.of_nat i * W <= len body ->
         slice body (W * Z.of_nat i) (Z.min (W * (Z.of_nat i + 1)) (len body))
         = Some (chunk W body i))
  /\ (1 <= length lines)%nat
  /\ (body = [] -> lines = [[]]).
Proof.
  intros HW Hfuel lines emitted.
  assert (Hlen : 0 <= len body) by (unfold len; lia).
  split; [|split; [|split; [|split]]].
  - unfold fasta.Write. simpl fasta.w. simpl fasta.W_IDPrefix. simpl seq.ID.
    unfold io.WriteString, io.Write. simpl io.room. cbv iota beta.
    unfold fasta.set_w. simpl.
    change 0 with (Z.of_nat 0).
    rewrite (fasta_Write_loop_run W idp seqp id body HW
               (S (Z.to_nat (len body / W))) 0%nat) by lia.
    subst emitted lines. unfold chunk_indices. rewrite map_map.
    set (rest := concat (map _ (List.seq 0 _))).
    unfold len. rewrite !length_app, <- !app_assoc. simpl.
    do 4 f_equal. lia.
  - intros i. unfold chunk_indices. rewrite in_seq.
    rewrite (loop_condition _ _ i HW Hlen). lia.
  - intros i Hi. apply (slice_chunk _ body i HW Hi).
  - subst lines. unfold chunk_indices. rewrite length_map, length_seq. lia.
  - intros ->. subst lines. unfold chunk_indices.
    change (len (@nil byte)) with 0. rewrite Z.div_0_l by lia. simpl.
    unfold chunk. rewrite skipn_nil, firstn_nil. reflexivity.
Qed.

(** C4 at width 3 and a body of length zero: the header line and one empty
    body line. *)
Lemma C4_fasta_write_chunks_witness :
  fasta.Write 2 (fasta.NewWriter io.unbounded 3) (seq.mkSeq (bs "id") [])
  = Some (Ok (5, None),
          fasta.mkWriter (io.mkWriter (bs ">id" ++ [LF] ++ [LF]) None) (bs ">") [] 3).
Proof.
  assert (H0 : 0 < 3) by lia.
  assert (H1 : (S (S (Z.to_nat (len (@nil byte) / 3))) <= 2)%nat) by (vm_compute; lia).
  exact (proj1 (C4_fasta_write_chunks 3 (bs ">") [] (bs "id") [] [] 2 H0 H1)).
Defined.


(** ** Facts about package bytes *)

Lemma byte_eqb_eq (a b : byte) : byte_eqb a b = true <-> a = b.
Proof. apply Ascii.eqb_eq. Qed.

Lemma byte_eqb_refl (a : byte) : byte_eqb a a = true.
Proof. apply byte_eqb_eq. reflexivity. Qed.

Lemma byte_eqb_neq (a b : byte) : byte_eqb a b = false <-> a <> b.
Proof. apply Ascii.eqb_neq. Qed.

Lemma len_cons_nonzero {A} (x : A) (l : list A) : (len (x :: l) =? 0) = false.
Proof. reflexivity. Qed.

Lemma len_eqb_length {A B} (a : list A) (b : list B) :
  (len a =? len b) = Nat.eqb (length a) (length b).
Proof.
  unfold len. destruct (Nat.eqb_spec (length a) (length b)) as [E|E].
  - rewrite E. apply Z.eqb_refl.
  - apply Z.eqb_neq. lia.
Qed.

Lemma Join_nil_sep (s : list (list byte)) : bytes.Join s [] = concat s.
Proof.
  induction s as [|x s IH]; [reflexivity|].
  destruct s as [|y s]; simpl in *.
  - rewrite app_nil_r. reflexivity.
  - rewrite IH. reflexivity.
Qed.

Lemma concat_Fields_from (cur l : list byte) :
  concat (bytes.Fields_from cur l) = cur ++ strip l.
Proof.
  revert cur. induction l as [|c l IH]; intros cur; simpl.
  - destruct cur; simpl; rewrite ?app_nil_r; reflexivity.
  - unfold strip. simpl. destruct (bytes.isSpace c); simpl.
    + destruct cur as [|x cur]; [apply (IH [])|].
      simpl. rewrite (IH []). reflexivity.
    + rewrite IH. rewrite <- app_assoc. reflexivity.
Qed.

(** [bytes.Join(bytes.Fields(line), nil)] removes the white space of a line. *)
Lemma Join_Fields (l : list byte) : bytes.Join (bytes.Fields l) [] = strip l.
Proof. rewrite Join_nil_sep. apply (concat_Fields_from [] l). Qed.

Lemma strip_id (l : list byte) :
  Forall (fun c => bytes.isSpace c = false) l -> strip l = l.
Proof.
  induction 1 as [|c l Hc Hl IH]; [reflexivity|].
  unfold strip. simpl. rewrite Hc. simpl. f_equal. exact IH.
Qed.

Lemma TrimLeft_id (c : byte) (l : list byte) :
  bytes.isSpace c = false -> bytes.TrimLeft (c :: l) = c :: l.
Proof. intros H. simpl. rewrite H. reflexivity. Qed.

Lemma TrimRight_id (l : list byte) (c : byte) :
  bytes.isSpace c = false -> bytes.TrimRight (l ++ [c]) = l ++ [c].
Proof.
  intros H. unfold bytes.TrimRight. rewrite rev_app_distr. simpl.
  rewrite H. simpl. rewrite rev_involutive. reflexivity.
Qed.

(** A line that starts and ends with a byte that is not white space is left
    alone by [bytes.TrimSpace]. *)
Lemma TrimSpace_id (l : list byte) :
  bytes.isSpace (hd " "%char l) = false ->
  bytes.isSpace (List.last l " "%char) = false ->
  bytes.TrimSpace l = l.
Proof.
  intros Hh Hl. unfold bytes.TrimSpace.
  destruct l as [|c l]; [discriminate Hh|].
  simpl in Hh. rewrite (TrimLeft_id c l Hh).
  destruct (exists_last (l := c :: l)) as [m [d E]]; [discriminate|].
  rewrite E in Hl |- *. rewrite last_last in Hl.
  apply TrimRight_id. exact Hl.
Qed.

Lemma nat_of_ascii_inj (a b : byte) : nat_of_ascii a = nat_of_ascii b -> a = b.
Proof.
  intros H. rewrite <- (ascii_nat_embedding a), <- (ascii_nat_embedding b), H.
  reflexivity.
Qed.

Lemma Compare_eq (a b : list byte) : bytes.Compare a b = 0 <-> a = b.
Proof.
  revert b. induction a as [|x a IH]; intros [|y b]; simpl;
    try (split; [discriminate|discriminate]); [tauto|].
  destruct (Nat.ltb_spec (nat_of_ascii x) (nat_of_ascii y)) as [H1|H1].
  - split; [discriminate|]. intros E. inversion E. subst. lia.
  - destruct (Nat.ltb_spec (nat_of_ascii y) (nat_of_ascii x)) as [H2|H2].
    + split; [discriminate|]. intros E. inversion E. subst. lia.
    + assert (x = y) by (apply nat_of_ascii_inj; lia). subst y.
      rewrite IH. split; [intros ->; reflexivity|]. intros E. inversion E. reflexivity.
Qed.

Lemma Compare_eqb (a b : list byte) :
  (bytes.Compare a b =? 0) = true <-> a = b.
Proof. rewrite Z.eqb_eq. apply Compare_eq. Qed.

(** [bytes.IndexAny] on a line whose first [pre] bytes are not in [chars]. *)
Lemma IndexAny_from_skip (chars pre post : list byte) (i : Z) :
  Forall (fun c => existsb (byte_eqb c) chars = false) pre ->
  bytes.IndexAny_from i (pre ++ post) chars
  = bytes.IndexAny_from (i + len pre) post chars.
Proof.
  intros H. revert i. induction H as [|c pre Hc Hpre IH]; intros i; simpl.
  - f_equal. unfold len. simpl. lia.
  - rewrite Hc, IH. f_equal. unfold len. simpl length. lia.
Qed.

(** ** The FASTQ reader *)

Section FastqReader.

Context {codec : alphabet.Codec}.
Variable t : fastq.Sequence.
Variable enc : alphabet.Encoding.

Lemma on_line_prefix (st : fastq.locals) (buff : list byte) :
  fastq.on_line t enc st buff true
  = fastq.Continue
      (fastq.mkLocals (fastq.line st ++ buff) (fastq.label st) (fastq.seqBuff st)
         (fastq.l_t st) (fastq.inQual st)).
Proof. reflexivity. Qed.

Lemma on_line_blank (st : fastq.locals) (buff : list byte) :
  bytes.TrimSpace (fastq.line st ++ buff) = [] ->
  fastq.on_line t enc st buff false
  = fastq.Continue
      (fastq.mkLocals [] (fastq.label st) (fastq.seqBuff st) (fastq.l_t st) (fastq.inQual st)).
Proof. intros H. unfold fastq.on_line. cbv zeta. rewrite H. reflexivity. Qed.

(** The [switch] of the loop body, on a line that is not blank. *)
Lemma on_line_switch (st : fastq.locals) (buff : list byte) (c : byte) (tl : list byte) :
  bytes.TrimSpace (fastq.line st ++ buff) = c :: tl ->
  fastq.on_line t enc st buff false
  = if negb (fastq.inQual st) && byte_eqb c "@"%char then
      fastq.Continue
        (fastq.mkLocals [] (c :: tl) (fastq.seqBuff st)
           (Some (fastq.readHeader t (c :: tl))) (fastq.inQual st))
    else if negb (fastq.inQual st) && byte_eqb c "+"%char then
      if len (fastq.label st) =? 0 then fastq.Return (Err fastq.ErrNoHeader)
      else if (1 <? len (c :: tl))
              && negb (bytes.Compare (slice_from (fastq.label st) 1) tl =? 0)
      then fastq.Return (Err fastq.ErrQualHeader)
      else fastq.Continue
             (fastq.mkLocals [] (fastq.label st) (fastq.seqBuff st) (fastq.l_t st) true)
    else if negb (fastq.inQual st) then
      fastq.Continue
        (fastq.mkLocals [] (fastq.label st) (fastq.letters_of (strip (c :: tl)))
           (fastq.l_t st) (fastq.inQual st))
    else
      if negb (len (strip (c :: tl)) =? len (fastq.seqBuff st))
      then fastq.Return (Err fastq.ErrLength)
      else match fastq.l_t st with
           | None => fastq.Return (Panic "invalid memory address or nil pointer dereference")
           | Some s =>
               fastq.Return
                 (Ok (fastq.AppendQLetters s
                        (fastq.set_quals enc (fastq.seqBuff st) (strip (c :: tl)))))
           end.
Proof.
  intros H. unfold fastq.on_line. cbv zeta. rewrite H.
  rewrite len_cons_nonzero, !Join_Fields. reflexivity.
Qed.

Lemma on_line_header (st : fastq.locals) (buff htxt : list byte) :
  fastq.inQual st = false ->
  bytes.TrimSpace (fastq.line st ++ buff) = "@"%char :: htxt ->
  fastq.on_line t enc st buff false
  = fastq.Continue
      (fastq.mkLocals [] ("@"%char :: htxt) (fastq.seqBuff st)
         (Some (fastq.readHeader t ("@"%char :: htxt))) false).
Proof.
  intros Hq H. rewrite (on_line_switch st buff _ _ H), Hq. reflexivity.
Qed.

Lemma on_line_letters (st : fastq.locals) (buff : list byte) (c : byte) (tl : list byte) :
  fastq.inQual st = false ->
  bytes.TrimSpace (fastq.line st ++ buff) = c :: tl ->
  c <> "@"%char -> c <> "+"%char ->
  fastq.on_line t enc st buff false
  = fastq.Continue
      (fastq.mkLocals [] (fastq.label st) (fastq.letters_of (strip (c :: tl)))
         (fastq.l_t st) false).
Proof.
  intros Hq H H1 H2. rewrite (on_line_switch st buff _ _ H), Hq.
  apply byte_eqb_neq in H1, H2. rewrite H1, H2. reflexivity.
Qed.

Lemma on_line_separator (st : fastq.locals) (buff txt : list byte) :
  fastq.inQual st = false ->
  fastq.label st <> [] ->
  bytes.TrimSpace (fastq.line st ++ buff) = "+"%char :: txt ->
  fastq.on_line t enc st buff false
  = if negb (bytes_eqb txt []) && negb (bytes.Compare (slice_from (fastq.label st) 1) txt =? 0)
    then fastq.Return (Err fastq.ErrQualHeader)
    else fastq.Continue
           (fastq.mkLocals [] (fastq.label st) (fastq.seqBuff st) (fastq.l_t st) true).
Proof.
  intros Hq Hl H. rewrite (on_line_switch st buff _ _ H), Hq.
  cbn [negb andb]. change (byte_eqb "+"%char "@"%char) with false.
  change (byte_eqb "+"%char "+"%char) with true. cbv iota.
  destruct (fastq.label st) as [|l0 lbl]; [contradiction|].
  rewrite len_cons_nonzero.
  destruct txt as [|x txt]; [reflexivity|].
  match goal with |- context [1 <? ?z] => replace (1 <? z) with true end; [reflexivity|].
  symmetry. apply Z.ltb_lt. unfold len. simpl length. lia.
Qed.

Lemma on_line_quality (st : fastq.locals) (buff : list byte) (c : byte) (tl : list byte)
      (s : fastq.Sequence) :
  fastq.inQual st = true ->
  fastq.l_t st = Some s ->
  bytes.TrimSpace (fastq.line st ++ buff) = c :: tl ->
  fastq.on_line t enc st buff false
  = fastq.Return
      (if len (strip (c :: tl)) =? len (fastq.seqBuff st)
       then Ok (fastq.AppendQLetters s
                  (fastq.set_quals enc (fastq.seqBuff st) (strip (c :: tl))))
       else Err fastq.ErrLength).
Proof.
  intros Hq Ht H. rewrite (on_line_switch st buff _ _ H), Hq, Ht.
  cbn [negb andb].
  destruct (len (strip (c :: tl)) =? len (fastq.seqBuff st)); reflexivity.
Qed.

(** The loop of [fastq.Reader.Read], one call of [ReadLine] at a time. *)
Lemma fastq_Read_loop_step (rd : bufio.Reader bufio.LineResult) (st : fastq.locals) :
  fastq.Read_loop t enc (bufio.script rd) (bufio.fail rd) st
  = match bufio.ReadLine rd with
    | ((_, _, Some err), rd') => (Err (error_of err), rd')
    | ((buff, isPrefix, None), rd') =>
        match fastq.on_line t enc st buff isPrefix with
        | fastq.Continue st' =>
            fastq.Read_loop t enc (bufio.script rd') (bufio.fail rd') st'
        | fastq.Return res => (res, rd')
        end
    end.
Proof.
  destruct rd as [sc fl]. unfold bufio.ReadLine. simpl.
  destruct sc as [|[[buff isPrefix] [e|]] sc']; reflexivity.
Qed.

Lemma fastq_Read_loop_cons (buff : list byte) (isPrefix : bool)
      (sc : list bufio.LineResult) (fl : srcerr) (st : fastq.locals) :
  fastq.Read_loop t enc ((buff, isPrefix, None) :: sc) fl st
  = match fastq.on_line t enc st buff isPrefix with
    | fastq.Continue st' => fastq.Read_loop t enc sc fl st'
    | fastq.Return res => (res, bufio.mkReader sc fl)
    end.
Proof. reflexivity. Qed.



Lemma consistent_init : consistent fastq.init.
Proof. split; simpl; [discriminate|congruence]. Qed.

Lemma consistent_on_line (st st' : fastq.locals) (buff : list byte) (p : bool) :
  consistent st ->
  fastq.on_line t enc st buff p = fastq.Continue st' ->
  consistent st'.
Proof.
  intros [Hq Hl] H. destruct p.
  - rewrite on_line_prefix in H. inversion H. subst st'. split; assumption.
  - destruct (bytes.TrimSpace (fastq.line st ++ buff)) as [|c tl] eqn:E.
    + rewrite (on_line_blank st buff E) in H. inversion H. split; assumption.
    + rewrite (on_line_switch st buff _ _ E) in H.
      destruct (fastq.inQual st) eqn:Eq; cbn [negb andb] in H.
      * destruct (negb (len (strip (c :: tl)) =? len (fastq.seqBuff st)));
          [discriminate|]. destruct (fastq.l_t st); discriminate.
      * destruct (byte_eqb c "@"%char).
        { inversion H. split; simpl; [discriminate|]. intros _. eexists. reflexivity. }
        destruct (byte_eqb c "+"%char).
        { destruct (len (fastq.label st) =? 0) eqn:E0; [discriminate|].
          destruct ((1 <? len (c :: tl))
                    && negb (bytes.Compare (slice_from (fastq.label st) 1) tl =? 0));
            [discriminate|].
          inversion H. split; simpl; [|exact Hl].
          intros _ Hnil. rewrite Hnil in E0. discriminate. }
        inversion H. split; simpl; [discriminate|exact Hl].
Qed.


(** The quality bytes go to the letters position by position. *)
Lemma set_quals_spec (sb : list alphabet.QLetter) (q : list byte) :
  length q = length sb ->
  map (fun x => alphabet.L x) (fastq.set_quals enc sb q) = map (fun x => alphabet.L x) sb
  /\ map (fun x => alphabet.Q x) (fastq.set_quals enc sb q)
     = map (alphabet.DecodeToQphred enc) q.
Proof.
  revert q. induction sb as [|x sb IH]; intros [|c q] H; simpl in *;
    try discriminate; [split; reflexivity|].
  destruct (IH q) as [H1 H2]; [lia|]. rewrite H1, H2. split; reflexivity.
Qed.

End FastqReader.






(** ** Lines before the separator *)








Section BeforeSeparator.

Context {codec : alphabet.Codec}.
Variable t : fastq.Sequence.
Variable enc : alphabet.Encoding.



End BeforeSeparator.

(** ** The header line and the separator line *)



Section ToSeparator.

Context {codec : alphabet.Codec}.
Variable t : fastq.Sequence.
Variable enc : alphabet.Encoding.


End ToSeparator.




(** ** Letter lines *)





(** ** The FASTQ writer *)

(** Equations between byte counts. *)
Ltac len_solve :=
  unfold len;
  repeat (progress (rewrite ?length_app, ?length_map; cbn [length app]));
  lia.

Section FastqWriter.

Context {codec : alphabet.Codec}.

(** A write to a sink that never fails. *)
Lemma and_then_unbounded (n : Z) (out p : list byte)
      (k : Z -> io.Writer -> (Z * option error) * io.Writer) :
  fastq.and_then n (io.Write (io.mkWriter out None) p) k
  = k (n + len p) (io.mkWriter (out ++ p) None).
Proof. reflexivity. Qed.

Lemma write_each_unbounded (f : alphabet.QLetter -> byte) (ql : list alphabet.QLetter)
      (k : Z -> io.Writer -> (Z * option error) * io.Writer) :
  forall (n : Z) (out : list byte),
    fastq.write_each f ql n (io.mkWriter out None) k
    = k (n + len ql) (io.mkWriter (out ++ map f ql) None).
Proof.
  induction ql as [|q ql IH]; intros n out.
  - simpl. rewrite app_nil_r. f_equal. unfold len. simpl. lia.
  - cbn [fastq.write_each]. rewrite and_then_unbounded, IH.
    cbn [map]. rewrite <- app_assoc. f_equal. unfold len. simpl length. lia.
Qed.

Lemma writeHeader_unbounded (out : list byte) (prefix : byte) (s : fastq.Sequence) :
  fastq.writeHeader (io.mkWriter out None) prefix s
  = ((len (prefix :: header_text s ++ [LF]), None),
     io.mkWriter (out ++ prefix :: header_text s ++ [LF]) None).
Proof.
  unfold fastq.writeHeader, io.WriteString, header_text.
  rewrite !and_then_unbounded.
  destruct (fastq.Description s) as [|d desc] eqn:E.
  - cbn [len length Z.of_nat negb Z.eqb]. unfold io.Write. cbn [io.room io.out].
    rewrite app_nil_r, <- !app_assoc. cbn [app].
    f_equal. f_equal. len_solve.
  - rewrite len_cons_nonzero. cbn [negb].
    unfold io.Write. cbn [io.room io.out].
    rewrite <- !app_assoc. cbn [app bs list_ascii_of_string].
    f_equal. f_equal. len_solve.
Qed.

(** What [Write] sends to a sink that never fails: the bytes of the record,
    counted, and no error. *)
Lemma fastq_Write_unbounded (out : list byte) (qid : bool) (s : fastq.Sequence) :
  let enc :=
    match fastq.Encoder s with
    | Some e => e
    | None => alphabet.Sanger
    end in
  fastq.Write (fastq.mkWriter (io.mkWriter out None) qid) s
  = ((len (record_bytes qid enc s), None),
     fastq.mkWriter (io.mkWriter (out ++ record_bytes qid enc s) None) qid).
Proof.
  intros enc. unfold fastq.Write. cbn [fastq.w fastq.QID]. fold enc.
  rewrite writeHeader_unbounded. unfold fastq.and_then at 1.
  rewrite write_each_unbounded, and_then_unbounded.
  assert (Hsep :
    forall n o k,
      (if qid
       then fastq.and_then n (fastq.writeHeader (io.mkWriter o None) "+"%char s)
       else fastq.and_then n (io.Write (io.mkWriter o None) (bs "+" ++ [LF]))) k
      = k (n + len ("+"%char :: (if qid then header_text s else []) ++ [LF]))
          (io.mkWriter (o ++ "+"%char :: (if qid then header_text s else []) ++ [LF]) None)).
  { intros n o k. destruct qid.
    - rewrite writeHeader_unbounded. reflexivity.
    - rewrite and_then_unbounded. reflexivity. }
  rewrite Hsep, write_each_unbounded, and_then_unbounded.
  unfold record_bytes. rewrite <- !app_assoc.
  f_equal. f_equal. len_solve.
Qed.

End FastqWriter.

(** ** Reading back what the FASTQ writer wrote *)

Lemma graphic_not_space (c : byte) : graphic c = true -> bytes.isSpace c = false.
Proof.
  unfold graphic. intros H. apply andb_prop in H. destruct H as [_ H].
  destruct (bytes.isSpace c); [discriminate|reflexivity].
Qed.

Lemma not_space_not_LF (c : byte) : bytes.isSpace c = false -> c <> LF.
Proof. intros H E. subst c. discriminate H. Qed.

Lemma not_space_not_CR (c : byte) : bytes.isSpace c = false -> byte_eqb c CR = false.
Proof. intros H. apply byte_eqb_neq. intros E. subst c. discriminate H. Qed.

Lemma not_space_not_blank (c : byte) :
  bytes.isSpace c = false -> existsb (byte_eqb c) blanks = false.
Proof.
  intros H. simpl.
  destruct (byte_eqb c " "%char) eqn:E1.
  { apply byte_eqb_eq in E1. subst c. discriminate H. }
  destruct (byte_eqb c "009"%char) eqn:E2.
  { apply byte_eqb_eq in E2. subst c. discriminate H. }
  reflexivity.
Qed.

Lemma last_default {A} (l : list A) (d d' : A) : l <> [] -> List.last l d = List.last l d'.
Proof.
  intros H. destruct (exists_last H) as [m [x E]]. rewrite E, !last_last. reflexivity.
Qed.

Lemma last_app_nonempty {A} (l1 l2 : list A) (d d' : A) :
  l2 <> [] -> List.last (l1 ++ l2) d = List.last l2 d'.
Proof.
  intros H. destruct (exists_last H) as [m [x E]].
  rewrite E, app_assoc, !last_last. reflexivity.
Qed.

Lemma Forall_last {A} (P : A -> Prop) (l : list A) (d : A) :
  Forall P l -> P d -> P (List.last l d).
Proof.
  intros Hl Hd. induction Hl as [|x l Hx Hl IH]; [exact Hd|].
  destruct l as [|y l]; [exact Hx|]. exact IH.
Qed.

Lemma dropCR_id (l : list byte) :
  byte_eqb (List.last l "@"%char) CR = false -> bufio.dropCR l = l.
Proof.
  intros H. unfold bufio.dropCR. destruct (rev l) as [|c l'] eqn:E; [reflexivity|].
  assert (El : l = rev l' ++ [c]).
  { rewrite <- (rev_involutive l), E. reflexivity. }
  rewrite El, last_last in H. rewrite H. reflexivity.
Qed.

Lemma line_results_line (l rest : list byte) :
  Forall (fun c => c <> LF) l ->
  forall cur,
    bufio.line_results cur (l ++ LF :: rest)
    = (bufio.dropCR (cur ++ l), false, None) :: bufio.line_results [] rest.
Proof.
  induction 1 as [|c l Hc Hl IH]; intros cur.
  - simpl. rewrite app_nil_r. reflexivity.
  - cbn [app bufio.line_results].
    replace (byte_eqb c LF) with false by (symmetry; apply byte_eqb_neq; exact Hc).
    rewrite IH, <- app_assoc. reflexivity.
Qed.

(** A clean line comes out of [ReadLine] and [bytes.TrimSpace] as it is. *)
Lemma clean_line (l rest : list byte) :
  clean l ->
  bufio.line_results [] (l ++ LF :: rest) = whole l :: bufio.line_results [] rest
  /\ bytes.TrimSpace l = l.
Proof.
  intros [Hh [Hl Hlf]]. split.
  - rewrite (line_results_line l rest Hlf []). cbn [app].
    rewrite dropCR_id; [reflexivity|].
    destruct l as [|c l]; [discriminate Hh|].
    rewrite (last_default (c :: l) "@"%char " "%char) by discriminate.
    apply not_space_not_CR. exact Hl.
  - apply TrimSpace_id; assumption.
Qed.

(** A non-empty line of bytes none of which is white space is clean. *)
Lemma clean_plain (c : byte) (l : list byte) :
  Forall (fun x => bytes.isSpace x = false) (c :: l) -> clean (c :: l).
Proof.
  intros H. split; [|split].
  - inversion H. assumption.
  - rewrite (last_default (c :: l) " "%char c) by discriminate.
    apply (Forall_last (fun x => bytes.isSpace x = false)); [exact H|].
    inversion H. assumption.
  - eapply Forall_impl; [|exact H]. intros x Hx. apply not_space_not_LF. exact Hx.
Qed.

Section ReadBack.

Context {codec : alphabet.Codec}.

(** The text of a header line after its sigil, for a representable value:
    with the sigil in front it is a clean line. *)
Lemma clean_header (enc : alphabet.Encoding) (s : fastq.Sequence) (sigil : byte) :
  representable enc s ->
  bytes.isSpace sigil = false ->
  clean (sigil :: header_text s).
Proof.
  intros [Hname [Hdesc [Hlast _]]] Hsig.
  assert (Hn : Forall (fun x => bytes.isSpace x = false) (fastq.Name s)).
  { eapply Forall_impl; [|exact Hname]. intros x. apply graphic_not_space. }
  unfold header_text. destruct (fastq.Description s) as [|d desc] eqn:E.
  - rewrite app_nil_r. apply clean_plain. constructor; assumption.
  - split; [exact Hsig|]. split.
    + rewrite app_assoc, app_comm_cons.
      rewrite (last_app_nonempty _ (d :: desc) " "%char "@"%char) by discriminate.
      exact Hlast.
    + constructor; [apply not_space_not_LF; exact Hsig|].
      apply Forall_app. split.
      * eapply Forall_impl; [|exact Hn]. intros x. apply not_space_not_LF.
      * constructor; [discriminate|].
        eapply Forall_impl; [|exact Hdesc]. intros x [_ Hx]. exact Hx.
Qed.

Lemma IndexAny_from_none (l : list byte) (i : Z) :
  Forall (fun c => bytes.isSpace c = false) l ->
  bytes.IndexAny_from i l blanks = -1.
Proof.
  intros H. rewrite <- (app_nil_r l).
  rewrite IndexAny_from_skip; [reflexivity|].
  eapply Forall_impl; [|exact H]. intros c. apply not_space_not_blank.
Qed.

(** [readHeader] on the header line the writer wrote. *)
Lemma readHeader_written (t s : fastq.Sequence) :
  Forall (fun c => graphic c = true) (fastq.Name s) ->
  fastq.readHeader t ("@"%char :: header_text s)
  = fastq.mkSequence (fastq.Name s)
      (match fastq.Description s with
       | [] => fastq.Description t
       | _ :: _ => fastq.Description s
       end)
      (fastq.QLetters t) (fastq.Encoder t).
Proof.
  intros Hname.
  assert (Hn : Forall (fun x => bytes.isSpace x = false) (fastq.Name s)).
  { eapply Forall_impl; [|exact Hname]. intros x. apply graphic_not_space. }
  unfold fastq.readHeader, bytes.IndexAny, header_text.
  cbn [bytes.IndexAny_from].
  change (existsb (byte_eqb "@"%char) blanks) with false. cbv iota.
  destruct (fastq.Description s) as [|d desc] eqn:E.
  - rewrite app_nil_r, (IndexAny_from_none _ _ Hn). reflexivity.
  - rewrite IndexAny_from_skip
      by (eapply Forall_impl; [|exact Hn]; intros c; apply not_space_not_blank).
    cbn [bs list_ascii_of_string app bytes.IndexAny_from].
    change (existsb (byte_eqb " "%char) blanks) with true. cbv iota.
    replace (0 + 1 + len (fastq.Name s) <? 0) with false
      by (symmetry; apply Z.ltb_ge; unfold len; lia).
    unfold fastq.SetDescription, fastq.SetName, fastq.Clone.
    cbn [fastq.Name fastq.Description fastq.QLetters fastq.Encoder].
    f_equal.
    + unfold fastq.sub, len.
      replace (Z.to_nat (0 + 1 + Z.of_nat (length (fastq.Name s))) - 1)%nat
        with (length (fastq.Name s) + 0)%nat by lia.
      cbn [skipn]. rewrite firstn_app_2. cbn [firstn]. apply app_nil_r.
    + unfold slice_from, len.
      replace (Z.to_nat (0 + 1 + Z.of_nat (length (fastq.Name s)) + 1))
        with (S (length (fastq.Name s) + 1)) by lia.
      cbn [skipn]. rewrite skipn_app, skipn_all2 by lia.
      replace (length (fastq.Name s) + 1 - length (fastq.Name s))%nat with 1%nat by lia.
      reflexivity.
Qed.

End ReadBack.

Section RoundTrip.

Context {codec : alphabet.Codec}.

(** The bytes of a record, line by line. *)
Lemma record_bytes_lines (qid : bool) (enc : alphabet.Encoding) (s : fastq.Sequence)
      (rest : list byte) :
  record_bytes qid enc s ++ rest
  = ("@"%char :: header_text s) ++ LF ::
    map (fun q => alphabet.L q) (fastq.QLetters s) ++ LF ::
    ("+"%char :: (if qid then header_text s else [])) ++ LF ::
    map (fun q => alphabet.Encode (alphabet.Q q) enc) (fastq.QLetters s) ++ LF :: rest.
Proof.
  unfold record_bytes.
  repeat (rewrite <- app_assoc; cbn [app]). reflexivity.
Qed.

(** Reading the bytes of a representable record yields its name, its
    description, its letters, and its qualities encoded and decoded. *)
Lemma fastq_Read_record_bytes (qid : bool) (enc : alphabet.Encoding)
      (s t : fastq.Sequence) (rest : list byte) :
  representable enc s ->
  fastq.QLetters t = [] ->
  fastq.Description t = [] ->
  exists r,
    fastq.Read_loop t enc (bufio.line_results [] (record_bytes qid enc s ++ rest))
      AtEOF fastq.init
    = (Ok r, bufio.mkReader (bufio.line_results [] rest) AtEOF)
    /\ fastq.Name r = fastq.Name s
    /\ fastq.Description r = fastq.Description s
    /\ map (fun q => alphabet.L q) (fastq.QLetters r)
       = map (fun q => alphabet.L q) (fastq.QLetters s)
    /\ map (fun q => alphabet.Q q) (fastq.QLetters r)
       = map (fun q => alphabet.DecodeToQphred enc (alphabet.Encode (alphabet.Q q) enc))
           (fastq.QLetters s).
Proof.
  intros Hrep Ht Htd.
  pose proof Hrep as [Hname [Hdesc [Hlast [Hne [Hlet [Hfirst Hqual]]]]]].
  set (hl := "@"%char :: header_text s).
  set (ll := map (fun q => alphabet.L q) (fastq.QLetters s)).
  set (sl := "+"%char :: (if qid then header_text s else [])).
  set (ql := map (fun q => alphabet.Encode (alphabet.Q q) enc) (fastq.QLetters s)).
  assert (Hhl : clean hl) by (apply (clean_header enc s "@"%char Hrep); reflexivity).
  assert (Hsl : clean sl).
  { unfold sl. destruct qid.
    - apply (clean_header enc s "+"%char Hrep). reflexivity.
    - apply clean_plain. constructor; [reflexivity|constructor]. }
  destruct (fastq.QLetters s) as [|q0 qs] eqn:Eq; [contradiction|].
  assert (Hll_plain : Forall (fun x => bytes.isSpace x = false) ll).
  { unfold ll. apply Forall_map. eapply Forall_impl; [|exact Hlet].
    intros q. apply graphic_not_space. }
  assert (Hql_plain : Forall (fun x => bytes.isSpace x = false) ql).
  { unfold ql. apply Forall_map. eapply Forall_impl; [|exact Hqual].
    intros q. apply graphic_not_space. }
  assert (Hll : clean ll) by (apply clean_plain; exact Hll_plain).
  assert (Hql : clean ql) by (apply clean_plain; exact Hql_plain).
  destruct (Hfirst q0 eq_refl) as [Hat Hplus].
  rewrite record_bytes_lines. rewrite Eq. fold hl ll sl ql.
  destruct (clean_line hl (ll ++ LF :: sl ++ LF :: ql ++ LF :: rest) Hhl) as [E1 T1].
  destruct (clean_line ll (sl ++ LF :: ql ++ LF :: rest) Hll) as [E2 T2].
  destruct (clean_line sl (ql ++ LF :: rest) Hsl) as [E3 T3].
  destruct (clean_line ql rest Hql) as [E4 T4].
  rewrite E1, E2, E3, E4. unfold whole.
  (* the header line *)
  rewrite fastq_Read_loop_cons.
  rewrite (on_line_header t enc fastq.init hl (header_text s) eq_refl T1).
  fold hl. cbn [fastq.seqBuff fastq.init].
  (* the letter line *)
  rewrite fastq_Read_loop_cons.
  rewrite (on_line_letters t enc
             (fastq.mkLocals [] hl [] (Some (fastq.readHeader t hl)) false)
             ll (alphabet.L q0) (map (fun q => alphabet.L q) qs) eq_refl T2 Hat Hplus).
  change (alphabet.L q0 :: map (fun q => alphabet.L q) qs) with ll.
  rewrite (strip_id ll Hll_plain).
  cbn [fastq.label fastq.l_t fastq.seqBuff].
  (* the separator line *)
  rewrite fastq_Read_loop_cons.
  rewrite (on_line_separator t enc
             (fastq.mkLocals [] hl (fastq.letters_of ll) (Some (fastq.readHeader t hl)) false)
             sl (if qid then header_text s else []) eq_refl);
    [|discriminate|exact T3].
  cbn [fastq.label fastq.seqBuff fastq.l_t].
  assert (Hsep : negb (bytes_eqb (if qid then header_text s else []) [])
                 && negb (bytes.Compare (slice_from hl 1)
                            (if qid then header_text s else []) =? 0) = false).
  { destruct qid; [|reflexivity].
    replace (bytes.Compare (slice_from hl 1) (header_text s) =? 0) with true
      by (symmetry; apply Compare_eqb; reflexivity).
    apply andb_false_r. }
  rewrite Hsep.
  (* the quality line *)
  rewrite fastq_Read_loop_cons.
  rewrite (on_line_quality t enc
             (fastq.mkLocals [] hl (fastq.letters_of ll) (Some (fastq.readHeader t hl)) true)
             ql (alphabet.Encode (alphabet.Q q0) enc)
             (map (fun q => alphabet.Encode (alphabet.Q q) enc) qs)
             (fastq.readHeader t hl) eq_refl eq_refl T4).
  change (alphabet.Encode (alphabet.Q q0) enc
          :: map (fun q => alphabet.Encode (alphabet.Q q) enc) qs) with ql.
  rewrite (strip_id ql Hql_plain). cbn [fastq.seqBuff].
  assert (Hlen : length ql = length (fastq.letters_of ll)).
  { unfold ql, ll, fastq.letters_of. rewrite !length_map. reflexivity. }
  rewrite len_eqb_length, Hlen, Nat.eqb_refl.
  eexists. split; [reflexivity|].
  unfold hl. rewrite (readHeader_written t s Hname).
  unfold fastq.AppendQLetters.
  cbn [fastq.Name fastq.Description fastq.QLetters fastq.Encoder].
  destruct (set_quals_spec enc (fastq.letters_of ll) ql Hlen) as [HL HQ].
  split; [reflexivity|]. split.
  { rewrite Htd. destruct (fastq.Description s); reflexivity. }
  rewrite Ht. cbn [app]. rewrite HL, HQ. split.
  - unfold fastq.letters_of. rewrite map_map. cbn [alphabet.L]. apply map_id.
  - unfold ql. rewrite map_map. reflexivity.
Qed.

End RoundTrip.

(** C9 (as amended).  Round trip through the FASTQ writer and reader, for a
    sequence value the text format can carry ([representable]: a name of plain
    ASCII text without white space, a one-line ASCII description that does not
    end in white space, at least one letter, letters that are plain text and
    do not begin with '@' or '+', encoded quality bytes that are plain text).
    Writing it to a sink that does not fail, with or without the name on the
    separator line, and reading the bytes back through a reader whose template
    has no letters and no description and resolves to the same encoding,
    yields a sequence with the same name, the same description, the same
    letters in the same order, and at each position the quality obtained by
    encoding and decoding the original one. *)
Theorem C9_fastq_round_trip
    (codec : alphabet.Codec) (qid : bool) (s t : fastq.Sequence) (rest : list byte) :
  let enc :=
    match fastq.Encoder s with
    | Some e => e
    | None => alphabet.Sanger
    end in
  representable enc s ->
  fastq.QLetters t = [] ->
  fastq.Description t = [] ->
  match fastq.Encoder t with
  | Some e => e
  | None => alphabet.None_
  end = enc ->
  exists w' r rd',
    fastq.Write (fastq.mkWriter io.unbounded qid) s
    = ((len (record_bytes qid enc s), None), w')
    /\ fastq.Read (fastq.NewReader (bufio.NewReader_line (io.out (fastq.w w') ++ rest)) t)
       = (Ok r, rd')
    /\ fastq.Name r = fastq.Name s
    /\ fastq.Description r = fastq.Description s
    /\ map (fun q => alphabet.L q) (fastq.QLetters r)
       = map (fun q => alphabet.L q) (fastq.QLetters s)
    /\ map (fun q => alphabet.Q q) (fastq.QLetters r)
       = map (fun q => alphabet.DecodeToQphred enc (alphabet.Encode (alphabet.Q q) enc))
           (fastq.QLetters s).
Proof.
  intros enc Hrep Ht Htd Henc.
  destruct (fastq_Read_record_bytes qid enc s t rest Hrep Ht Htd)
    as [r [Hread [Hn [Hd [HL HQ]]]]].
  eexists. exists r. eexists.
  split; [apply (fastq_Write_unbounded [] qid s)|].
  split; [|repeat split; assumption].
  unfold fastq.Read, fastq.NewReader, bufio.NewReader_line.
  cbn [fastq.r fastq.t fastq.enc fastq.w io.out bufio.script bufio.fail app].
  rewrite Henc. fold enc. rewrite Hread. reflexivity.
Qed.

(** C9 on the record "id desc", letters "ACGT", scores 0, 10, 20, 30. *)
Lemma C9_fastq_round_trip_witness :
  exists w' r rd',
    fastq.Write (fastq.mkWriter io.unbounded false)
      (phred33.record "id" "desc" "ACGT" [0; 10; 20; 30]%nat)
    = ((len (record_bytes false phred33.Offset33
               (phred33.record "id" "desc" "ACGT" [0; 10; 20; 30]%nat)), None), w')
    /\ fastq.Read
         (fastq.NewReader (bufio.NewReader_line (io.out (fastq.w w') ++ [])) phred33.template)
       = (Ok r, rd')
    /\ fastq.Name r = bs "id"
    /\ fastq.Description r = bs "desc"
    /\ map (fun q => alphabet.L q) (fastq.QLetters r) = bs "ACGT"
    /\ map (fun q => alphabet.Q q) (fastq.QLetters r)
       = map (fun q => phred33.decode phred33.Offset33
                         (phred33.encode (alphabet.Q q) phred33.Offset33))
           (fastq.QLetters (phred33.record "id" "desc" "ACGT" [0; 10; 20; 30]%nat)).
Proof.
  refine (C9_fastq_round_trip phred33.codec false
            (phred33.record "id" "desc" "ACGT" [0; 10; 20; 30]%nat)
            phred33.template [] _ eq_refl eq_refl eq_refl).
  unfold representable. cbn [fastq.Name fastq.Description fastq.QLetters phred33.record].
  split; [repeat constructor|].
  split; [repeat (apply Forall_cons || apply Forall_nil);
          (split; [vm_compute; lia|discriminate])|].
  split; [reflexivity|].
  split; [discriminate|].
  split; [repeat constructor|].
  split; [intros q Hq; inversion Hq; subst q; split; discriminate|].
  repeat constructor.
Defined.

(** C9 as stated fails: a sequence with one letter, a quality for it, and the
    name "a b" is read back with the name "a" and the description "b". *)
Lemma C9_counterexample :
  let s := phred33.record "a b" "" "A" [3%nat] in
  fastq.QLetters s <> []
  /\ exists r,
       fst (fastq.Read
              (fastq.NewReader
                 (bufio.NewReader_line
                    (io.out (fastq.w (snd (fastq.Write (fastq.NewWriter io.unbounded) s)))))
                 phred33.template))
       = Ok r
       /\ fastq.Name r = bs "a"
       /\ fastq.Description r = bs "b"
       /\ fastq.Name r <> fastq.Name s.
Proof.
  cbv zeta. split; [discriminate|].
  eexists. split; [vm_compute; reflexivity|].
  split; [reflexivity|]. split; [reflexivity|]. discriminate.
Qed.

(** The other conditions of [representable] are needed as well: letters that
    begin with '@' are read as a second header line, and a description that
    ends in a blank comes back without it. *)
Lemma fastq_round_trip_needs_representable :
  let read_back s :=
    fst (fastq.Read
           (fastq.NewReader
              (bufio.NewReader_line
                 (io.out (fastq.w (snd (fastq.Write (fastq.NewWriter io.unbounded) s)))))
              phred33.template)) in
  read_back (phred33.record "id" "" "@C" [0; 0]%nat) = Err fastq.ErrLength
  /\ read_back (phred33.record "id" "d " "A" [0%nat])
     = Ok (phred33.record "id" "d" "A" [0%nat]).
Proof. split; vm_compute; reflexivity. Qed.

(** A bulk read that meets a malformed FASTQ record returns no collection
    and the reader's error, although a record was read before. *)
Lemma alignio_Read_aborts_on_protocol_error :
  exists r',
    alignio.Read 3
      (fastq.NewReader
         (bufio.NewReader_line (text ["@a"; "AC"; "+"; "!!"; "@b"; "AC"; "+"; "!"]%string))
         phred33.template)
    = Some (Err fastq.ErrLength, r').
Proof. eexists. vm_compute. reflexivity. Qed.

(** * Further properties of the readers and writers *)

(** ** The FASTA reader: errors and termination *)

(** Whatever the locals, the loop of [fasta.Reader.Read] ends with a sequence
    or with the end-of-stream error; when it ends with a sequence, less is
    left to go through than there was. *)
Lemma fasta_Read_loop_outcome (idp seqp : list byte) (fl : srcerr)
      (sc : list bufio.BytesResult) :
  forall st,
    (exists s rd',
        fasta.Read_loop idp seqp sc fl st = (Ok s, rd')
        /\ (fasta_pending rd'
            < length sc + match fasta.l_last st with Some _ => 1 | None => 0 end)%nat)
    \/ (exists rd', fasta.Read_loop idp seqp sc fl st = (Err EOF, rd')).
Proof.
  induction sc as [|[line [e|]] sc IH]; intros st.
  - cbn [fasta.Read_loop]. unfold fasta.on_error, fasta.after_loop.
    destruct (fasta.l_last st).
    + left. do 2 eexists. split; [reflexivity|]. unfold fasta_pending. simpl. lia.
    + right. eexists. reflexivity.
  - cbn [fasta.Read_loop]. unfold fasta.on_error, fasta.after_loop.
    destruct (fasta.l_last st).
    + left. do 2 eexists. split; [reflexivity|]. unfold fasta_pending. simpl. lia.
    + right. eexists. reflexivity.
  - cbn [fasta.Read_loop].
    destruct (fasta.on_line idp seqp st line) as [st1|st1] eqn:E.
    + destruct (IH st1) as [[s [rd' [Hr Hm]]] | [rd' Hr]].
      * left. exists s, rd'. split; [exact Hr|].
        cbn [length]. destruct (fasta.l_last st1), (fasta.l_last st); lia.
      * right. exists rd'. exact Hr.
    + left. do 2 eexists. split; [reflexivity|].
      assert (Hs : exists x, fasta.l_last st = Some x /\ exists y, fasta.l_last st1 = Some y).
      { unfold fasta.on_line in E.
        destruct (len _ =? 0); [discriminate|].
        destruct (bytes.HasPrefix _ idp).
        - destruct (fasta.l_last st) as [x|]; [|discriminate].
          inversion E. exists x. split; [reflexivity|]. eexists. reflexivity.
        - destruct (bytes.HasPrefix _ seqp); discriminate. }
      destruct Hs as [x [Hx [y Hy]]].
      unfold fasta_pending. cbn [fasta.r fasta.last bufio.script length].
      rewrite Hx, Hy. lia.
Qed.


(** A stream that breaks with an I/O error right after a header line: the
    error is not reported, the record read so far is returned, and the next
    call reports the end of the stream. *)
Lemma fasta_Read_drops_io_error :
  let rd := fasta.NewReader
              (bufio.mkReader [(bs ">a" ++ [LF], None); ([], Some (Broken 5))] (Broken 5)) in
  fst (fasta.Read rd) = Ok (seq.mkSeq (bs "a") [])
  /\ fst (fasta.Read (snd (fasta.Read rd))) = Err EOF.
Proof. split; vm_compute; reflexivity. Qed.

(** Every call that returns a sequence leaves less to go through. *)
Lemma fasta_Read_progress (rd : fasta.Reader) :
  (exists s rd', fasta.Read rd = (Ok s, rd') /\ (fasta_pending rd' < fasta_pending rd)%nat)
  \/ (exists rd', fasta.Read rd = (Err EOF, rd')).
Proof.
  unfold fasta.Read.
  destruct (fasta_Read_loop_outcome (fasta.IDPrefix rd) (fasta.SeqPrefix rd)
              (bufio.fail (fasta.r rd)) (bufio.script (fasta.r rd))
              (fasta.mkLocals (fasta.last rd) (fasta.last rd) []))
    as [[s [rd' [Hr Hm]]] | [rd' Hr]]; rewrite Hr.
  - left. exists s, rd'. split; [reflexivity|]. exact Hm.
  - right. exists rd'. reflexivity.
Qed.

(** X2.  The bulk read of a FASTA reader always ends, and ends with a
    collection and no error: one call of the wrapped [Read] more than the
    reader has results and pending label to go through is enough. *)
Theorem alignio_Read_fasta_returns_collection (rd : fasta.Reader) :
  exists a rd',
    alignio.Read (S (fasta_pending rd)) rd = Some (Ok a, rd').
Proof.
  unfold alignio.Read.
  assert (H : forall n rd0 a0,
             (fasta_pending rd0 < n)%nat ->
             exists a rd', alignio.Read_loop n rd0 a0 = Some (Ok a, rd')).
  { induction n as [|n IH]; intros rd0 a0 Hn; [lia|].
    cbn [alignio.Read_loop]. unfold seqio.Read, fasta.Reader_seqio.
    destruct (fasta_Read_progress rd0) as [[s [rd1 [Hr Hm]]] | [rd1 Hr]]; rewrite Hr.
    - apply IH. lia.
    - cbn [error_eqb]. do 2 eexists. reflexivity. }
  apply H. lia.
Qed.

(** ** The FASTQ reader: errors, blank lines and long lines *)

Section FastqReaderMore.

Context {codec : alphabet.Codec}.
Variable t : fastq.Sequence.
Variable enc : alphabet.Encoding.

(** What the loop body can return, from locals that can arise. *)
Lemma on_line_return (st : fastq.locals) (buff : list byte) (p : bool)
      (res : result fastq.Sequence) :
  consistent st ->
  fastq.on_line t enc st buff p = fastq.Return res ->
  (exists s, res = Ok s)
  \/ res = Err fastq.ErrNoHeader
  \/ res = Err fastq.ErrQualHeader
  \/ res = Err fastq.ErrLength.
Proof.
  intros [Hq Hl] H. destruct p; [rewrite on_line_prefix in H; discriminate|].
  destruct (bytes.TrimSpace (fastq.line st ++ buff)) as [|c tl] eqn:E.
  { rewrite (on_line_blank t enc st buff E) in H. discriminate. }
  rewrite (on_line_switch t enc st buff c tl E) in H.
  destruct (fastq.inQual st) eqn:Eq; cbn [negb andb] in H.
  - destruct (negb (len (strip (c :: tl)) =? len (fastq.seqBuff st))).
    + inversion H. auto.
    + destruct (Hl (Hq eq_refl)) as [s Hs]. rewrite Hs in H.
      inversion H. left. eexists. reflexivity.
  - destruct (byte_eqb c "@"%char); [discriminate|].
    destruct (byte_eqb c "+"%char); [|discriminate].
    destruct (len (fastq.label st) =? 0); [inversion H; auto|].
    destruct ((1 <? len (c :: tl))
              && negb (bytes.Compare (slice_from (fastq.label st) 1) tl =? 0));
      [inversion H; auto|discriminate].
Qed.

Lemma fastq_Read_loop_outcome (fl : srcerr) (sc : list bufio.LineResult) :
  forall st,
    consistent st ->
    let res := fst (fastq.Read_loop t enc sc fl st) in
    (exists s, res = Ok s)
    \/ (exists e, res = Err (error_of e))
    \/ res = Err fastq.ErrNoHeader
    \/ res = Err fastq.ErrQualHeader
    \/ res = Err fastq.ErrLength.
Proof.
  induction sc as [|[[buff p] [e|]] sc IH]; intros st Hc; cbv zeta.
  - right. left. exists fl. reflexivity.
  - right. left. exists e. reflexivity.
  - rewrite fastq_Read_loop_cons.
    destruct (fastq.on_line t enc st buff p) as [st1|res] eqn:E.
    + apply IH. apply (consistent_on_line t enc st st1 buff p Hc E).
    + cbn [fst]. destruct (on_line_return st buff p res Hc E) as [H | [H | [H | H]]]; auto.
Qed.

(** A line that is blank, read at the start of a line, changes nothing. *)
Lemma fastq_Read_loop_skips_blank (b : list byte) (sc : list bufio.LineResult)
      (fl : srcerr) (st : fastq.locals) :
  fastq.line st = [] ->
  is_blank b = true ->
  fastq.Read_loop t enc (whole b :: sc) fl st = fastq.Read_loop t enc sc fl st.
Proof.
  intros Hl Hb. unfold whole. rewrite fastq_Read_loop_cons.
  assert (E : bytes.TrimSpace (fastq.line st ++ b) = []).
  { rewrite Hl. cbn [app]. unfold is_blank in Hb.
    destruct (bytes.TrimSpace b); [reflexivity|discriminate]. }
  rewrite (on_line_blank t enc st b E).
  destruct st as [l lab sb ot q]. cbn in Hl. subst l. reflexivity.
Qed.

(** After a complete line the line buffer is empty. *)
Lemma on_line_complete_line_empties (st st' : fastq.locals) (buff : list byte) :
  fastq.on_line t enc st buff false = fastq.Continue st' -> fastq.line st' = [].
Proof.
  intros H.
  destruct (bytes.TrimSpace (fastq.line st ++ buff)) as [|c tl] eqn:E.
  { rewrite (on_line_blank t enc st buff E) in H. inversion H. reflexivity. }
  rewrite (on_line_switch t enc st buff c tl E) in H.
  destruct (negb (fastq.inQual st) && byte_eqb c "@"%char); [inversion H; reflexivity|].
  destruct (negb (fastq.inQual st) && byte_eqb c "+"%char).
  { destruct (len (fastq.label st) =? 0); [discriminate|].
    destruct ((1 <? len (c :: tl))
              && negb (bytes.Compare (slice_from (fastq.label st) 1) tl =? 0));
      [discriminate|inversion H; reflexivity]. }
  destruct (negb (fastq.inQual st)); [inversion H; reflexivity|].
  destruct (negb (len (strip (c :: tl)) =? len (fastq.seqBuff st))); [discriminate|].
  destruct (fastq.l_t st); discriminate.
Qed.

Lemma fastq_Read_loop_filter_blank (fl : srcerr) (ls : list (list byte)) :
  forall st,
    fastq.line st = [] ->
    fst (fastq.Read_loop t enc (map whole ls) fl st)
    = fst (fastq.Read_loop t enc (map whole (filter (fun l => negb (is_blank l)) ls)) fl st).
Proof.
  induction ls as [|l ls IH]; intros st Hl; [reflexivity|].
  cbn [map filter]. destruct (is_blank l) eqn:Eb; cbn [negb].
  - rewrite (fastq_Read_loop_skips_blank l _ fl st Hl Eb). apply IH. exact Hl.
  - cbn [map]. unfold whole at 1 3. rewrite !fastq_Read_loop_cons.
    destruct (fastq.on_line t enc st l false) as [st1|res] eqn:E; [|reflexivity].
    apply IH. apply (on_line_complete_line_empties st st1 l E).
Qed.


End FastqReaderMore.

(** X3.  [fastq.Reader.Read] returns a sequence, the error of the underlying
    stream, or one of the three errors of the format (no header before the
    separator, separator text not matching the header, length mismatch).  It
    never panics: the sequence value it appends the letters to in the quality
    section is never nil, because the quality section is entered only after a
    header line. *)
Theorem fastq_Read_outcomes (codec : alphabet.Codec) (rd : fastq.Reader) :
  let res := fst (fastq.Read rd) in
  (exists s, res = Ok s)
  \/ (exists e, res = Err (error_of e))
  \/ res = Err fastq.ErrNoHeader
  \/ res = Err fastq.ErrQualHeader
  \/ res = Err fastq.ErrLength.
Proof.
  cbv zeta. unfold fastq.Read.
  pose proof (fastq_Read_loop_outcome (fastq.t rd) (fastq.enc rd)
                (bufio.fail (fastq.r rd)) (bufio.script (fastq.r rd))
                fastq.init consistent_init) as H.
  cbv zeta in H.
  destruct (fastq.Read_loop (fastq.t rd) (fastq.enc rd) (bufio.script (fastq.r rd))
              (bufio.fail (fastq.r rd)) fastq.init) as [res r'].
  exact H.
Qed.





(** X6.  Blank lines between the lines of a stream do not change what
    [fastq.Reader.Read] returns: the result over complete lines is the result
    over these lines with the blank ones left out. *)
Theorem fastq_Read_ignores_blank_lines
    (codec : alphabet.Codec) (t : fastq.Sequence) (enc : alphabet.Encoding)
    (ls : list (list byte)) (fl : srcerr) :
  fst (fastq.Read (fastq.mkReader (bufio.mkReader (map whole ls) fl) t enc))
  = fst (fastq.Read
           (fastq.mkReader
              (bufio.mkReader (map whole (filter (fun l => negb (is_blank l)) ls)) fl) t enc)).
Proof.
  unfold fastq.Read. cbn [fastq.r fastq.t fastq.enc bufio.script bufio.fail].
  pose proof (fastq_Read_loop_filter_blank t enc fl ls fastq.init eq_refl) as H.
  destruct (fastq.Read_loop t enc (map whole ls) fl fastq.init) as [res1 r1].
  destruct (fastq.Read_loop t enc
              (map whole (filter (fun l => negb (is_blank l)) ls)) fl fastq.init)
    as [res2 r2].
  exact H.
Qed.


(** ** The writers on a sink that may fail *)

(** Equations between two outcomes of a write. *)
Ltac wr_eq :=
  apply f_equal2;
  [ apply f_equal2; [try lia | try reflexivity]
  | apply f_equal2; [try reflexivity | try reflexivity; try (f_equal; lia)] ].

(** Two writes in a row, the second only if the first succeeded, are one
    write of the two pieces. *)
Lemma io_Write_app (w : io.Writer) (p1 p2 : list byte) :
  io.Write w (p1 ++ p2)
  = match io.Write w p1 with
    | ((c1, Some e), w1) => ((c1, Some e), w1)
    | ((c1, None), w1) =>
        let '((c2, e2), w2) := io.Write w1 p2 in ((c1 + c2, e2), w2)
    end.
Proof.
  destruct w as [out [k|]]; unfold io.Write, len; cbn [io.room io.out];
    rewrite ?length_app.
  - destruct (Nat.leb_spec (length p1) k) as [H1|H1]; cbn [io.room io.out].
    + destruct (Nat.leb_spec (length p2) (k - length p1)) as [H2|H2].
      * replace (length p1 + length p2 <=? k)%nat with true
          by (symmetry; apply Nat.leb_le; lia).
        rewrite <- app_assoc. wr_eq.
      * replace (length p1 + length p2 <=? k)%nat with false
          by (symmetry; apply Nat.leb_gt; lia).
        rewrite firstn_app, (firstn_all2 p1), <- app_assoc by lia. wr_eq.
    + replace (length p1 + length p2 <=? k)%nat with false
        by (symmetry; apply Nat.leb_gt; lia).
      rewrite firstn_app. replace (k - length p1)%nat with 0%nat by lia.
      cbn [firstn]. rewrite app_nil_r. reflexivity.
  - rewrite <- app_assoc. wr_eq.
Qed.

Lemma io_Write_nil (w : io.Writer) : io.Write w [] = ((0, None), w).
Proof.
  destruct w as [out [k|]]; unfold io.Write; cbn [io.room io.out length].
  - cbn [Nat.leb]. rewrite app_nil_r, Nat.sub_0_r. reflexivity.
  - rewrite app_nil_r. reflexivity.
Qed.


Section FastqWriterMore.

Context {codec : alphabet.Codec}.






End FastqWriterMore.


(** The chunk loop of [fasta.Writer.Write] on any sink: the lines still to
    write go out as one write. *)
Lemma fasta_Write_loop_one_write (W : Z) (idp seqp id body : list byte) :
  0 < W ->
  forall (k i : nat) (w : io.Writer) (n : Z) (fuel : nat),
    (i + k = S (Z.to_nat (len body / W)))%nat ->
    (k < fuel)%nat ->
    fasta.Write_loop fuel (fasta.mkWriter w idp seqp W) (seq.mkSeq id body) (Z.of_nat i) n
    = Some (let '((c, e), w') :=
              io.Write w (concat (map (fun j => body_line seqp (chunk W body j))
                                    (List.seq i k))) in
            (Ok (n + c, e), fasta.mkWriter w' idp seqp W)).
Proof.
  intros HW k.
  assert (Hlen : 0 <= len body) by (unfold len; lia).
  induction k as [|k IH]; intros i w n fuel Hik Hfuel;
    (destruct fuel as [|fuel]; [lia|]); rewrite fasta_Write_loop_S;
    unfold seq.Len; cbn [fasta.Width seq.Seq_ fasta.w fasta.W_SeqPrefix].
  - replace (Z.of_nat i * W <=? len body) with false.
    + cbn [List.seq map concat]. rewrite io_Write_nil, Z.add_0_r. reflexivity.
    + symmetry. apply Z.leb_gt.
      destruct (Z.le_gt_cases (Z.of_nat i * W) (len body)) as [Hle|Hgt]; [|exact Hgt].
      apply (loop_condition _ _ i HW Hlen) in Hle. lia.
  - replace (Z.of_nat i * W <=? len body) with true
      by (symmetry; apply Z.leb_le; apply (loop_condition _ _ i HW Hlen); lia).
    rewrite slice_chunk; [|exact HW|apply (loop_condition _ _ i HW Hlen); lia].
    cbn [List.seq map concat].
    set (rest := concat (map (fun j => body_line seqp (chunk W body j)) (List.seq (S i) k))).
    unfold io.WriteString, body_line.
    rewrite (io_Write_app w (seqp ++ chunk W body i ++ [LF]) rest).
    destruct (io.Write w (seqp ++ chunk W body i ++ [LF])) as [[ln [e|]] w'].
    + reflexivity.
    + unfold fasta.set_w. cbn [fasta.W_IDPrefix fasta.W_SeqPrefix fasta.Width].
      replace (Z.of_nat i + 1) with (Z.of_nat (S i)) by lia.
      rewrite IH by lia. fold rest.
      destruct (io.Write w' rest) as [[c2 e2] w2]. rewrite Z.add_assoc. reflexivity.
Qed.

(** [fasta.Writer.Write] on any sink, as one write of the record's text. *)
Lemma fasta_Write_any_sink (w : io.Writer) (idp seqp : list byte) (W : Z)
      (id body : list byte) (fuel : nat) :
  0 < W ->
  (S (S (Z.to_nat (len body / W))) <= fuel)%nat ->
  fasta.Write fuel (fasta.mkWriter w idp seqp W) (seq.mkSeq id body)
  = Some (let '((c, e), w') :=
            io.Write w (fasta_text idp seqp W (seq.mkSeq id body)) in
          (Ok (c, e), fasta.mkWriter w' idp seqp W)).
Proof.
  intros HW Hfuel.
  unfold fasta.Write, io.WriteString, fasta_text.
  cbn [fasta.w fasta.W_IDPrefix seq.ID seq.Seq_].
  set (rest := concat (map (fun j => body_line seqp (chunk W body j))
                         (chunk_indices W body))).
  rewrite (io_Write_app w (idp ++ id ++ [LF]) rest).
  destruct (io.Write w (idp ++ id ++ [LF])) as [[n [e|]] w1]; [reflexivity|].
  unfold fasta.set_w. cbn [fasta.W_IDPrefix fasta.W_SeqPrefix fasta.Width].
  change 0 with (Z.of_nat 0).
  rewrite (fasta_Write_loop_one_write W idp seqp id body HW
             (S (Z.to_nat (len body / W))) 0%nat) by lia.
  fold (chunk_indices W body). fold rest.
  destruct (io.Write w1 rest) as [[c2 e2] w2]. reflexivity.
Qed.



(** ** Reading back several FASTQ records *)

Section FastqBulk.

Context {codec : alphabet.Codec}.
Variable t : fastq.Sequence.
Variable enc : alphabet.Encoding.

Lemma readHeader_Encoder (line : list byte) :
  fastq.Encoder (fastq.readHeader t line) = fastq.Encoder t.
Proof.
  unfold fastq.readHeader. destruct (bytes.IndexAny line blanks <? 0); reflexivity.
Qed.

(** The sequence value held by the loop is a clone of the template. *)
Lemma on_line_keeps_Encoder (st : fastq.locals) (buff : list byte) (p : bool) :
  (forall s, fastq.l_t st = Some s -> fastq.Encoder s = fastq.Encoder t) ->
  match fastq.on_line t enc st buff p with
  | fastq.Continue st' =>
      forall s, fastq.l_t st' = Some s -> fastq.Encoder s = fastq.Encoder t
  | fastq.Return (Ok r) => fastq.Encoder r = fastq.Encoder t
  | fastq.Return _ => True
  end.
Proof.
  intros H. destruct p; [rewrite on_line_prefix; exact H|].
  destruct (bytes.TrimSpace (fastq.line st ++ buff)) as [|c tl] eqn:E.
  { rewrite (on_line_blank t enc st buff E). exact H. }
  rewrite (on_line_switch t enc st buff c tl E).
  destruct (negb (fastq.inQual st) && byte_eqb c "@"%char).
  { cbn [fastq.l_t]. intros s Hs. inversion Hs. apply readHeader_Encoder. }
  destruct (negb (fastq.inQual st) && byte_eqb c "+"%char).
  { destruct (len (fastq.label st) =? 0); [exact I|].
    destruct ((1 <? len (c :: tl))
              && negb (bytes.Compare (slice_from (fastq.label st) 1) tl =? 0));
      [exact I|exact H]. }
  destruct (negb (fastq.inQual st)); [exact H|].
  destruct (negb (len (strip (c :: tl)) =? len (fastq.seqBuff st))); [exact I|].
  destruct (fastq.l_t st) as [s|] eqn:Es; [|exact I].
  unfold fastq.AppendQLetters. cbn [fastq.Encoder]. apply H. reflexivity.
Qed.

Lemma fastq_Read_loop_Encoder (fl : srcerr) (sc : list bufio.LineResult) :
  forall st r rd',
    (forall s, fastq.l_t st = Some s -> fastq.Encoder s = fastq.Encoder t) ->
    fastq.Read_loop t enc sc fl st = (Ok r, rd') ->
    fastq.Encoder r = fastq.Encoder t.
Proof.
  induction sc as [|[[buff p] [e|]] sc IH]; intros st r rd' H Hr.
  - discriminate Hr.
  - discriminate Hr.
  - rewrite fastq_Read_loop_cons in Hr.
    pose proof (on_line_keeps_Encoder st buff p H) as Hk.
    destruct (fastq.on_line t enc st buff p) as [st1|res].
    + apply (IH st1 r rd' Hk Hr).
    + inversion Hr. subst res. exact Hk.
Qed.

Lemma qletters_from_maps (g : alphabet.QLetter -> alphabet.Qphred)
      (a qs : list alphabet.QLetter) :
  map (fun q => alphabet.L q) a = map (fun q => alphabet.L q) qs ->
  map (fun q => alphabet.Q q) a = map g qs ->
  a = map (fun q => alphabet.mkQLetter (alphabet.L q) (g q)) qs.
Proof.
  revert qs. induction a as [|[l q] a IH]; intros [|q0 qs] HL HQ;
    try discriminate; [reflexivity|].
  cbn [map alphabet.L alphabet.Q] in *. inversion HL. inversion HQ.
  f_equal. apply IH; assumption.
Qed.

(** Reading the text of a representable record gives exactly [read_back]. *)
Lemma fastq_Read_record_exact (qid : bool) (s : fastq.Sequence) (rest : list byte) :
  representable enc s ->
  fastq.QLetters t = [] ->
  fastq.Description t = [] ->
  fastq.Read_loop t enc (bufio.line_results [] (record_bytes qid enc s ++ rest))
    AtEOF fastq.init
  = (Ok (read_back enc t s), bufio.mkReader (bufio.line_results [] rest) AtEOF).
Proof.
  intros Hrep Ht Htd.
  destruct (fastq_Read_record_bytes qid enc s t rest Hrep Ht Htd)
    as [r [Hread [Hn [Hd [HL HQ]]]]].
  rewrite Hread. f_equal. f_equal.
  assert (He : fastq.Encoder r = fastq.Encoder t).
  { eapply (fastq_Read_loop_Encoder AtEOF _ fastq.init r); [|exact Hread].
    intros s0 Hs0. discriminate Hs0. }
  destruct r as [rn rdesc rq re]. cbn [fastq.Name fastq.Description fastq.QLetters
                                       fastq.Encoder] in *.
  unfold read_back. subst rn rdesc re. f_equal.
  apply (qletters_from_maps
           (fun q => alphabet.DecodeToQphred enc (alphabet.Encode (alphabet.Q q) enc))
           rq (fastq.QLetters s) HL HQ).
Qed.

Lemma fastq_reads_records (qid : bool) (ss : list fastq.Sequence) :
  Forall (representable enc) ss ->
  fastq.QLetters t = [] ->
  fastq.Description t = [] ->
  reads
    (fastq.mkReader
       (bufio.mkReader
          (bufio.line_results [] (concat (map (record_bytes qid enc) ss))) AtEOF) t enc)
    (map (read_back enc t) ss) EOF
    (fastq.mkReader (bufio.mkReader [] AtEOF) t enc).
Proof.
  intros Hall Ht Htd. induction Hall as [|s ss Hs Hss IH].
  - apply reads_fail. reflexivity.
  - cbn [map concat]. eapply reads_more; [|exact IH].
    unfold seqio.Read, fastq.Reader_seqio, fastq.Read.
    cbn [fastq.r fastq.t fastq.enc bufio.script bufio.fail].
    rewrite (fastq_Read_record_exact qid s _ Hs Ht Htd). reflexivity.
Qed.

End FastqBulk.

(** X10.  Bulk read of FASTQ text.  The text of representable records, one
    after the other as the writer lays them out, is read by the collection
    adapter over a FASTQ reader (template without letters and description)
    into the collection of these records, in order: each with its name, its
    description, its letters, and its qualities encoded and decoded.  The
    reader stops at each record's quality line, so no record takes bytes of
    the next. *)
Theorem fastq_bulk_read_of_records
    (codec : alphabet.Codec) (qid : bool) (t : fastq.Sequence)
    (ss : list fastq.Sequence) (fuel : nat) :
  let enc :=
    match fastq.Encoder t with
    | Some e => e
    | None => alphabet.None_
    end in
  Forall (representable enc) ss ->
  fastq.QLetters t = [] ->
  fastq.Description t = [] ->
  (length ss < fuel)%nat ->
  alignio.Read fuel
    (fastq.NewReader
       (bufio.NewReader_line (concat (map (record_bytes qid enc) ss))) t)
  = Some (Ok (map (read_back enc t) ss),
          fastq.mkReader (bufio.mkReader [] AtEOF) t enc).
Proof.
  intros enc Hall Ht Htd Hfuel.
  unfold alignio.Read, fastq.NewReader, bufio.NewReader_line. fold enc.
  rewrite (alignio_Read_loop_reads _ _ _ _
             (fastq_reads_records t enc qid ss Hall Ht Htd) fuel []).
  - reflexivity.
  - rewrite length_map. exact Hfuel.
Qed.

(** X10 on the two records "a" (letters "AC") and "b" (letters "G"). *)
Lemma fastq_bulk_read_of_records_witness :
  alignio.Read 3
    (fastq.NewReader
       (bufio.NewReader_line
          (concat (map (record_bytes true phred33.Offset33)
                     [phred33.record "a" "first" "AC" [1; 2]%nat;
                      phred33.record "b" "" "G" [40%nat]])))
       phred33.template)
  = Some (Ok (map (read_back phred33.Offset33 phred33.template)
                [phred33.record "a" "first" "AC" [1; 2]%nat;
                 phred33.record "b" "" "G" [40%nat]]),
          fastq.mkReader (bufio.mkReader [] AtEOF) phred33.template phred33.Offset33).
Proof.
  refine (fastq_bulk_read_of_records phred33.codec true phred33.template
            [phred33.record "a" "first" "AC" [1; 2]%nat;
             phred33.record "b" "" "G" [40%nat]] 3 _ eq_refl eq_refl _).
  - repeat (apply Forall_cons || apply Forall_nil);
      unfold representable;
      cbn [fastq.Name fastq.Description fastq.QLetters phred33.record];
      (split; [repeat constructor|]);
      (split; [repeat (apply Forall_cons || apply Forall_nil);
               (split; [vm_compute; lia|discriminate])|]);
      (split; [reflexivity|]);
      (split; [discriminate|]);
      (split; [repeat constructor|]);
      (split; [intros q Hq; inversion Hq; subst q; split; discriminate|]);
      repeat constructor.
  - simpl. lia.
Defined.

(** ** Reading back what the FASTA writer wrote *)

Lemma Forall_sub_firstn {A} (P : A -> Prop) (n : nat) (l : list A) :
  Forall P l -> Forall P (firstn n l).
Proof.
  intros H. revert n. induction H as [|x l Hx Hl IH]; intros [|n]; cbn [firstn];
    constructor; auto.
Qed.

Lemma Forall_sub_skipn {A} (P : A -> Prop) (n : nat) (l : list A) :
  Forall P l -> Forall P (skipn n l).
Proof.
  intros H. revert n. induction H as [|x l Hx Hl IH]; intros [|n]; cbn [skipn];
    try constructor; auto.
Qed.

Lemma firstn_plus {A} (a b : nat) (l : list A) :
  firstn (a + b) l = firstn a l ++ firstn b (skipn a l).
Proof.
  revert l. induction a as [|a IH]; intros l; [reflexivity|].
  destruct l as [|x l]; cbn [Nat.add firstn skipn app].
  - rewrite firstn_nil. reflexivity.
  - rewrite IH. reflexivity.
Qed.

Lemma firstn_min_length {A} (n : nat) (l : list A) :
  firstn (Nat.min n (length l)) l = firstn n l.
Proof.
  destruct (Nat.le_ge_cases n (length l)) as [H|H].
  - rewrite Nat.min_l by exact H. reflexivity.
  - rewrite Nat.min_r by exact H. rewrite firstn_all, firstn_all2 by exact H. reflexivity.
Qed.

Lemma chunk_forall (P : byte -> Prop) (W : Z) (body : list byte) (j : nat) :
  Forall P body -> Forall P (chunk W body j).
Proof. intros H. unfold chunk. apply Forall_sub_firstn, Forall_sub_skipn, H. Qed.

(** Inside the loop a chunk is the next [W] bytes of the body, or what is
    left of it. *)
Lemma chunk_as_firstn (W : Z) (body : list byte) (i : nat) :
  0 < W ->
  Z.of_nat i * W <= len body ->
  chunk W body i = firstn (Z.to_nat W) (skipn (i * Z.to_nat W) body).
Proof.
  intros HW Hi. unfold chunk, len in *.
  set (w := Z.to_nat W). assert (HWw : W = Z.of_nat w) by (unfold w; lia).
  assert (Hp : Z.of_nat (i * w) = Z.of_nat w * Z.of_nat i) by lia.
  rewrite HWw in *.
  replace (Z.to_nat (Z.of_nat w * Z.of_nat i)) with (i * w)%nat by lia.
  rewrite <- (firstn_min_length w). rewrite length_skipn.
  f_equal.
  replace (Z.of_nat w * (Z.of_nat i + 1)) with (Z.of_nat w * Z.of_nat i + Z.of_nat w)
    by ring.
  lia.
Qed.

Lemma concat_firstn_chunks {A} (w : nat) (l : list A) (k : nat) :
  forall i,
    concat (map (fun j => firstn w (skipn (j * w) l)) (List.seq i k))
    = firstn (k * w) (skipn (i * w) l).
Proof.
  induction k as [|k IH]; intros i; [reflexivity|].
  cbn [List.seq map concat]. rewrite IH.
  replace (S i * w)%nat with (w + i * w)%nat by reflexivity.
  rewrite <- skipn_skipn.
  replace (S k * w)%nat with (w + k * w)%nat by reflexivity.
  rewrite firstn_plus. reflexivity.
Qed.

(** The chunks the writer emits, put end to end, are the body. *)
Lemma concat_chunks (W : Z) (body : list byte) :
  0 < W ->
  concat (map (chunk W body) (chunk_indices W body)) = body.
Proof.
  intros HW.
  assert (Hlen : 0 <= len body) by (unfold len; lia).
  unfold chunk_indices.
  rewrite (map_ext_in _ (fun j => firstn (Z.to_nat W) (skipn (j * Z.to_nat W) body))).
  - rewrite concat_firstn_chunks. cbn [Nat.mul skipn].
    apply firstn_all2.
    assert (Hhi : len body < W * Z.succ (len body / W))
      by (apply Z.mul_succ_div_gt; lia).
    assert (Hq : 0 <= len body / W) by (apply Z.div_pos; lia).
    unfold len in *. nia.
  - intros j Hj. apply in_seq in Hj. apply chunk_as_firstn; [exact HW|].
    apply (loop_condition W (len body) j HW Hlen). lia.
Qed.

Lemma bytes_results_line (l rest : list byte) :
  Forall (fun c => c <> LF) l ->
  forall cur,
    bufio.bytes_results cur (l ++ LF :: rest)
    = terminated (cur ++ l) :: bufio.bytes_results [] rest.
Proof.
  induction 1 as [|c l Hc Hl IH]; intros cur.
  - cbn [app bufio.bytes_results]. change (byte_eqb LF LF) with true. cbv iota.
    rewrite app_nil_r. reflexivity.
  - cbn [app bufio.bytes_results].
    replace (byte_eqb c LF) with false by (symmetry; apply byte_eqb_neq; exact Hc).
    rewrite IH, <- app_assoc. reflexivity.
Qed.

Lemma bytes_results_lines (ls : list (list byte)) (rest : list byte) :
  Forall (Forall (fun c => c <> LF)) ls ->
  bufio.bytes_results [] (concat (map (fun l => l ++ [LF]) ls) ++ rest)
  = map terminated ls ++ bufio.bytes_results [] rest.
Proof.
  induction 1 as [|l ls Hl Hls IH]; [reflexivity|].
  cbn [map concat]. rewrite <- !app_assoc. cbn [app].
  rewrite (bytes_results_line l _ Hl []). cbn [app]. rewrite IH. reflexivity.
Qed.

Lemma last_cons_default {A} (a : A) (l : list A) (d : A) :
  List.last (a :: l) d = List.last l a.
Proof.
  revert a d. induction l as [|x l IH]; intros a d; [reflexivity|].
  change (List.last (a :: x :: l) d) with (List.last (x :: l) d).
  rewrite (IH x d), (IH x a). reflexivity.
Qed.

Lemma TrimRight_newline (l : list byte) :
  bytes.TrimRight (l ++ [LF]) = bytes.TrimRight l.
Proof.
  unfold bytes.TrimRight. rewrite rev_app_distr. reflexivity.
Qed.

(** [bytes.TrimSpace] on a line with its newline. *)
Lemma TrimSpace_terminated (c : byte) (l : list byte) :
  bytes.isSpace c = false ->
  bytes.isSpace (List.last l c) = false ->
  bytes.TrimSpace ((c :: l) ++ [LF]) = c :: l.
Proof.
  intros Hc Hl. unfold bytes.TrimSpace. cbn [app].
  rewrite (TrimLeft_id c (l ++ [LF]) Hc).
  change (c :: l ++ [LF]) with ((c :: l) ++ [LF]).
  rewrite TrimRight_newline.
  rewrite <- (last_cons_default c l " "%char) in Hl.
  destruct (exists_last (l := c :: l)) as [m [d E]]; [discriminate|].
  rewrite E in Hl |- *. rewrite last_last in Hl.
  apply TrimRight_id. exact Hl.
Qed.

Section FastaReadBack.

Variable fl : srcerr.

Let idp : list byte := bs ">".
Let seqp : list byte := @nil ascii.

(** The header line of a plain record, read when no label is pending and
    when one is. *)
Lemma fasta_on_line_header (id : list byte) (st : fasta.locals) :
  Forall (fun c => (nat_of_ascii c < 128)%nat /\ c <> LF) id ->
  bytes.isSpace (List.last id ">"%char) = false ->
  fasta.on_line idp seqp st ((idp ++ id) ++ [LF])
  = match fasta.l_last st with
    | None => fasta.Continue (fasta.mkLocals (Some id) (Some id) (fasta.body st))
    | Some _ => fasta.Break (fasta.mkLocals (Some id) (fasta.l_last st) (fasta.body st))
    end.
Proof.
  intros Hid Hlast. unfold fasta.on_line.
  replace (byte_eqb (List.last ((idp ++ id) ++ [LF]) LF) CR) with false
    by (rewrite last_last; reflexivity).
  rewrite andb_false_r.
  unfold idp. change (bs ">" ++ id) with (">"%char :: id).
  rewrite (TrimSpace_terminated ">"%char id eq_refl Hlast).
  cbn [bs list_ascii_of_string].
  rewrite len_cons_nonzero.
  cbn [bytes.HasPrefix]. change (byte_eqb ">"%char ">"%char) with true.
  assert (Hp : bytes.HasPrefix id [] = true) by (destruct id; reflexivity).
  rewrite Hp. cbn [andb length slice_from skipn].
  destruct (fasta.l_last st); reflexivity.
Qed.

(** A body line of a plain record: an empty chunk, or plain text. *)
Lemma fasta_on_line_chunk (c : list byte) (st : fasta.locals) :
  Forall (fun x => graphic x = true /\ x <> ">"%char) c ->
  fasta.on_line idp seqp st (c ++ [LF])
  = fasta.Continue (fasta.mkLocals (fasta.l_last st) (fasta.label st) (fasta.body st ++ c)).
Proof.
  intros Hc. unfold fasta.on_line.
  replace (byte_eqb (List.last (c ++ [LF]) LF) CR) with false
    by (rewrite last_last; reflexivity).
  rewrite andb_false_r.
  destruct c as [|x c].
  - cbn [app]. change (bytes.TrimSpace [LF]) with (@nil ascii).
    cbn [len length Z.of_nat Z.eqb]. rewrite app_nil_r. destruct st; reflexivity.
  - assert (Hplain : Forall (fun y => bytes.isSpace y = false) (x :: c)).
    { eapply Forall_impl; [|exact Hc]. intros y [Hy _]. apply graphic_not_space, Hy. }
    assert (Hx : bytes.isSpace x = false) by (inversion Hplain; assumption).
    rewrite (TrimSpace_terminated x c Hx)
      by (apply (Forall_last (fun y => bytes.isSpace y = false)); [inversion Hplain|]; assumption).
    rewrite len_cons_nonzero.
    unfold idp, seqp. cbn [bs list_ascii_of_string bytes.HasPrefix].
    replace (byte_eqb x ">"%char) with false
      by (symmetry; apply byte_eqb_neq; inversion Hc; tauto).
    cbn [andb length slice_from skipn].
    rewrite Join_Fields, (strip_id (x :: c) Hplain). reflexivity.
Qed.

(** The body lines of a plain record are appended to the body. *)
Lemma fasta_Read_loop_chunks (chunks : list (list byte)) (sc : list bufio.BytesResult) :
  Forall (Forall (fun x => graphic x = true /\ x <> ">"%char)) chunks ->
  forall st,
    fasta.Read_loop idp seqp (map terminated chunks ++ sc) fl st
    = fasta.Read_loop idp seqp sc fl
        (fasta.mkLocals (fasta.l_last st) (fasta.label st) (fasta.body st ++ concat chunks)).
Proof.
  induction 1 as [|c chunks Hc Hcs IH]; intros st.
  - cbn [map app concat]. rewrite app_nil_r. destruct st; reflexivity.
  - cbn [map app concat]. unfold terminated at 1. cbn [fasta.Read_loop].
    rewrite (fasta_on_line_chunk c st Hc), IH.
    cbn [fasta.l_last fasta.label fasta.body]. rewrite <- app_assoc. reflexivity.
Qed.

End FastaReadBack.

Lemma fasta_plain_body_no_LF (s : seq.Seq) :
  fasta_plain s -> Forall (fun c => c <> LF) (seq.Seq_ s).
Proof.
  intros [_ [_ Hb]]. eapply Forall_impl; [|exact Hb].
  intros c [Hc _]. apply not_space_not_LF, graphic_not_space, Hc.
Qed.

(** What [ReadBytes] returns over the text of a plain record. *)
Lemma fasta_text_script (W : Z) (s : seq.Seq) (rest : list byte) :
  fasta_plain s ->
  bufio.bytes_results [] (fasta_text (bs ">") [] W s ++ rest)
  = terminated (bs ">" ++ seq.ID s)
    :: map terminated (map (chunk W (seq.Seq_ s)) (chunk_indices W (seq.Seq_ s)))
    ++ bufio.bytes_results [] rest.
Proof.
  intros Hs. pose proof Hs as [Hid [_ Hb]].
  assert (Htext : fasta_text (bs ">") [] W s
                  = concat (map (fun l => l ++ [LF])
                              ((bs ">" ++ seq.ID s)
                               :: map (chunk W (seq.Seq_ s))
                                    (chunk_indices W (seq.Seq_ s))))).
  { unfold fasta_text. cbn [map concat]. rewrite map_map, <- app_assoc. reflexivity. }
  rewrite Htext, bytes_results_lines; [reflexivity|].
  constructor.
  - constructor; [discriminate|].
    eapply Forall_impl; [|exact Hid]. intros c [_ Hc]. exact Hc.
  - apply Forall_map. apply Forall_forall. intros j _.
    apply chunk_forall. apply (fasta_plain_body_no_LF s Hs).
Qed.

Lemma fasta_chunks_plain (W : Z) (s : seq.Seq) :
  fasta_plain s ->
  Forall (Forall (fun x => graphic x = true /\ x <> ">"%char))
    (map (chunk W (seq.Seq_ s)) (chunk_indices W (seq.Seq_ s))).
Proof.
  intros [_ [_ Hb]]. apply Forall_map. apply Forall_forall. intros j _.
  apply chunk_forall. exact Hb.
Qed.

(** The reader that has the label of [s] pending and the body lines of [s]
    and the text of the records [ss] ahead returns [s] and then [ss]. *)
Lemma fasta_reads_from_body (W : Z) (ss : list seq.Seq) :
  0 < W ->
  Forall fasta_plain ss ->
  forall s,
    fasta_plain s ->
    reads
      (fasta.mkReader
         (bufio.mkReader
            (map terminated (map (chunk W (seq.Seq_ s)) (chunk_indices W (seq.Seq_ s)))
             ++ bufio.bytes_results [] (concat (map (fasta_text (bs ">") [] W) ss)))
            AtEOF)
         (bs ">") [] (Some (seq.ID s)))
      (s :: ss) EOF
      (fasta.mkReader (bufio.mkReader [] AtEOF) (bs ">") [] None).
Proof.
  intros HW Hall. induction Hall as [|s2 ss Hs2 Hss IH]; intros s Hs.
  - eapply reads_more.
    + unfold seqio.Read, fasta.Reader_seqio, fasta.Read.
      cbn [fasta.r fasta.IDPrefix fasta.SeqPrefix fasta.last bufio.script bufio.fail].
      rewrite (fasta_Read_loop_chunks AtEOF _ _ (fasta_chunks_plain W s Hs)).
      cbn [fasta.l_last fasta.label fasta.body app map concat bufio.bytes_results
           fasta.Read_loop].
      rewrite (concat_chunks W (seq.Seq_ s) HW).
      destruct s as [id body]. reflexivity.
    + apply reads_fail. reflexivity.
  - eapply reads_more; [|apply (IH s2 Hs2)].
    unfold seqio.Read, fasta.Reader_seqio, fasta.Read.
    cbn [fasta.r fasta.IDPrefix fasta.SeqPrefix fasta.last bufio.script bufio.fail].
    rewrite (fasta_Read_loop_chunks AtEOF _ _ (fasta_chunks_plain W s Hs)).
    cbn [fasta.l_last fasta.label fasta.body app map concat].
    rewrite (concat_chunks W (seq.Seq_ s) HW).
    rewrite (fasta_text_script W s2 _ Hs2).
    unfold terminated at 1. cbn [fasta.Read_loop].
    destruct Hs2 as [Hid2 [Hlast2 _]].
    rewrite (fasta_on_line_header (seq.ID s2) _ Hid2 Hlast2).
    cbn [fasta.l_last fasta.label fasta.body fasta.after_loop].
    destruct s as [id body]. reflexivity.
Qed.

(** Reading the text of plain records from the start of the stream. *)
Lemma fasta_reads_records (W : Z) (ss : list seq.Seq) :
  0 < W ->
  Forall fasta_plain ss ->
  reads
    (fasta.NewReader
       (bufio.NewReader_bytes (concat (map (fasta_text (bs ">") [] W) ss))))
    ss EOF
    (fasta.mkReader (bufio.mkReader [] AtEOF) (bs ">") [] None).
Proof.
  intros HW Hall. destruct Hall as [|s ss Hs Hss].
  - apply reads_fail. reflexivity.
  - pose proof (fasta_reads_from_body W ss HW Hss s Hs) as Hreads.
    inversion Hreads as [|r0 s0 r1 ss0 e0 r0' Hread Hrest]; subst.
    eapply reads_more; [|exact Hrest].
    rewrite <- Hread.
    unfold seqio.Read, fasta.Reader_seqio, fasta.Read, fasta.NewReader,
      bufio.NewReader_bytes.
    cbn [fasta.r fasta.IDPrefix fasta.SeqPrefix fasta.last bufio.script bufio.fail
         map concat].
    rewrite (fasta_text_script W s _ Hs).
    unfold terminated at 1. cbn [fasta.Read_loop].
    destruct Hs as [Hid [Hlast _]].
    rewrite (fasta_on_line_header (seq.ID s) _ Hid Hlast). reflexivity.
Qed.

(** X11.  FASTA round trip.  A plain record (name on one line without
    trailing white space, body of plain text without '>'), written at a width
    W > 0 with the default prefixes to a sink that does not fail, is read back
    from the bytes written as the same record, name and body; the call after
    that reports the end of the stream.  The empty body line that the writer
    adds when the length of the body is a multiple of W is skipped by the
    reader. *)
Theorem fasta_round_trip (W : Z) (s : seq.Seq) (fuel : nat) :
  0 < W ->
  fasta_plain s ->
  (S (S (Z.to_nat (seq.Len s / W))) <= fuel)%nat ->
  exists w' r1,
    fasta.Write fuel (fasta.NewWriter io.unbounded W) s
    = Some (Ok (len (fasta_text (bs ">") [] W s), None), w')
    /\ io.out (fasta.w w') = fasta_text (bs ">") [] W s
    /\ fasta.Read (fasta.NewReader (bufio.NewReader_bytes (io.out (fasta.w w'))))
       = (Ok s, r1)
    /\ fst (fasta.Read r1) = Err EOF.
Proof.
  intros HW Hs Hfuel.
  pose proof (fasta_reads_records W [s] HW (Forall_cons s Hs (Forall_nil _))) as Hreads.
  cbn [map concat] in Hreads. rewrite app_nil_r in Hreads.
  inversion Hreads as [|r0 s0 r1 ss0 e0 r0' Hread Hrest]; subst.
  inversion Hrest as [r2 e2 r2' Hend|]; subst.
  destruct s as [id body]. unfold seq.Len in Hfuel. cbn [seq.Seq_] in Hfuel.
  eexists. exists r1. split; [|split; [|split]].
  - change (fasta.NewWriter io.unbounded W)
      with (fasta.mkWriter (io.mkWriter [] None) (bs ">") [] W).
    rewrite (fasta_Write_any_sink (io.mkWriter [] None) (bs ">") [] W id body fuel HW Hfuel).
    reflexivity.
  - reflexivity.
  - exact Hread.
  - unfold seqio.Read, fasta.Reader_seqio in Hend. rewrite Hend. reflexivity.
Qed.

(** X11 at width 3 on the record "id" with body "ACGTAC". *)
Lemma fasta_round_trip_witness :
  exists w' r1,
    fasta.Write 4 (fasta.NewWriter io.unbounded 3) (seq.mkSeq (bs "id") (bs "ACGTAC"))
    = Some (Ok (len (fasta_text (bs ">") [] 3 (seq.mkSeq (bs "id") (bs "ACGTAC"))), None), w')
    /\ io.out (fasta.w w') = fasta_text (bs ">") [] 3 (seq.mkSeq (bs "id") (bs "ACGTAC"))
    /\ fasta.Read (fasta.NewReader (bufio.NewReader_bytes (io.out (fasta.w w'))))
       = (Ok (seq.mkSeq (bs "id") (bs "ACGTAC")), r1)
    /\ fst (fasta.Read r1) = Err EOF.
Proof.
  refine (fasta_round_trip 3 (seq.mkSeq (bs "id") (bs "ACGTAC")) 4 _ _ _).
  - lia.
  - unfold fasta_plain. cbn [seq.ID seq.Seq_].
    split; [repeat (apply Forall_cons || apply Forall_nil);
            (split; [vm_compute; lia|discriminate])|].
    split; [reflexivity|].
    repeat (apply Forall_cons || apply Forall_nil); (split; [reflexivity|discriminate]).
  - vm_compute. lia.
Defined.

(** X12.  Bulk read of FASTA text.  The text of plain records, one after the
    other as the writer lays them out at a width W > 0, is read by the
    collection adapter over a FASTA reader into the collection of exactly
    these records, in order: the header line of each next record, which the
    reader has to consume to see that the current record is over, is kept in
    [last] and becomes the name of the next sequence. *)
Theorem fasta_bulk_read_of_records (W : Z) (ss : list seq.Seq) (fuel : nat) :
  0 < W ->
  Forall fasta_plain ss ->
  (length ss < fuel)%nat ->
  alignio.Read fuel
    (fasta.NewReader (bufio.NewReader_bytes (concat (map (fasta_text (bs ">") [] W) ss))))
  = Some (Ok ss, fasta.mkReader (bufio.mkReader [] AtEOF) (bs ">") [] None).
Proof.
  intros HW Hall Hfuel. unfold alignio.Read.
  rewrite (alignio_Read_loop_reads _ _ _ _ (fasta_reads_records W ss HW Hall) fuel [] Hfuel).
  reflexivity.
Qed.

(** X12 at width 2 on the records "a" (body "ACG"), "b" (empty body) and
    "c d" (body "TT"). *)
Lemma fasta_bulk_read_of_records_witness :
  alignio.Read 4
    (fasta.NewReader
       (bufio.NewReader_bytes
          (concat (map (fasta_text (bs ">") [] 2)
                     [seq.mkSeq (bs "a") (bs "ACG"); seq.mkSeq (bs "b") [];
                      seq.mkSeq (bs "c d") (bs "TT")]))))
  = Some (Ok [seq.mkSeq (bs "a") (bs "ACG"); seq.mkSeq (bs "b") [];
              seq.mkSeq (bs "c d") (bs "TT")],
          fasta.mkReader (bufio.mkReader [] AtEOF) (bs ">") [] None).
Proof.
  refine (fasta_bulk_read_of_records 2
            [seq.mkSeq (bs "a") (bs "ACG"); seq.mkSeq (bs "b") [];
             seq.mkSeq (bs "c d") (bs "TT")] 4 _ _ _).
  - lia.
  - repeat (apply Forall_cons || apply Forall_nil);
      unfold fasta_plain; cbn [seq.ID seq.Seq_];
      (split; [repeat (apply Forall_cons || apply Forall_nil);
               (split; [vm_compute; lia|discriminate])|]);
      (split; [reflexivity|]);
      repeat (apply Forall_cons || apply Forall_nil); (split; [reflexivity|discriminate]).
  - simpl. lia.
Defined.

(** ** The unterminated end of a FASTA stream *)

Lemma error_end_rest_result (p : list byte) : error_end (rest_result p).
Proof.
  destruct p as [|c p]; [left; reflexivity|].
  right. exists (c :: p), AtEOF. reflexivity.
Qed.

Lemma bytes_results_no_newline (tail : list byte) :
  Forall (fun c => c <> LF) tail ->
  forall cur, bufio.bytes_results cur tail = rest_result (cur ++ tail).
Proof.
  induction 1 as [|c tail Hc Ht IH]; intros cur.
  - cbn [bufio.bytes_results]. rewrite app_nil_r. destruct cur; reflexivity.
  - cbn [bufio.bytes_results].
    replace (byte_eqb c LF) with false by (symmetry; apply byte_eqb_neq; exact Hc).
    rewrite IH, <- app_assoc. reflexivity.
Qed.

(** The complete lines of a stream do not depend on what follows its last
    newline. *)
Lemma bytes_results_split (s : list byte) :
  forall cur,
    exists C p,
      bufio.bytes_results cur s = C ++ rest_result p
      /\ forall tail,
           Forall (fun c => c <> LF) tail ->
           bufio.bytes_results cur (s ++ tail) = C ++ rest_result (p ++ tail).
Proof.
  induction s as [|c s IH]; intros cur.
  - exists [], cur. split.
    + cbn [bufio.bytes_results app]. destruct cur; reflexivity.
    + intros tail Ht. cbn [app]. apply bytes_results_no_newline. exact Ht.
  - cbn [app bufio.bytes_results]. destruct (byte_eqb c LF).
    + destruct (IH []) as [C [p [H1 H2]]].
      exists ((cur ++ [c], None) :: C), p. split.
      * rewrite H1. reflexivity.
      * intros tail Ht. rewrite (H2 tail Ht). reflexivity.
    + destruct (IH (cur ++ [c])) as [C [p [H1 H2]]].
      exists C, p. split; [exact H1|exact H2].
Qed.

(** One call of [Read] on two readers that differ only in how their streams
    end: the same result, and readers that again differ only there. *)
Lemma fasta_Read_loop_same_lines (idp seqp : list byte) (fl : srcerr)
      (E1 E2 : list bufio.BytesResult) (C : list bufio.BytesResult) :
  error_end E1 -> error_end E2 ->
  forall st,
    fst (fasta.Read_loop idp seqp (C ++ E1) fl st)
    = fst (fasta.Read_loop idp seqp (C ++ E2) fl st)
    /\ same_lines (snd (fasta.Read_loop idp seqp (C ++ E1) fl st))
                  (snd (fasta.Read_loop idp seqp (C ++ E2) fl st)).
Proof.
  intros HE1 HE2.
  assert (Hsame : forall C' l,
             same_lines (fasta.mkReader (bufio.mkReader (C' ++ E1) fl) idp seqp l)
                        (fasta.mkReader (bufio.mkReader (C' ++ E2) fl) idp seqp l)).
  { intros C' l. repeat split. exists C', E1, E2. repeat split; assumption. }
  assert (Hend : forall E, error_end E -> forall st,
             fasta.Read_loop idp seqp E fl st
             = (fst (fasta.on_error st),
                fasta.mkReader (bufio.mkReader [] fl) idp seqp (snd (fasta.on_error st)))).
  { intros E [-> | [x [e ->]]] st; cbn [fasta.Read_loop];
      destruct (fasta.on_error st); reflexivity. }
  induction C as [|[line [e|]] C IH]; intros st.
  - cbn [app]. rewrite (Hend E1 HE1), (Hend E2 HE2). cbn [fst snd]. split; [reflexivity|].
    repeat split. exists [], [], []. repeat split; left; reflexivity.
  - cbn [app fasta.Read_loop]. destruct (fasta.on_error st). cbn [fst snd].
    split; [reflexivity|apply Hsame].
  - cbn [app fasta.Read_loop].
    destruct (fasta.on_line idp seqp st line) as [st1|st1].
    + apply IH.
    + cbn [fst snd]. split; [reflexivity|apply Hsame].
Qed.

Lemma fasta_Read_same_lines (rd1 rd2 : fasta.Reader) :
  same_lines rd1 rd2 ->
  fst (fasta.Read rd1) = fst (fasta.Read rd2)
  /\ same_lines (snd (fasta.Read rd1)) (snd (fasta.Read rd2)).
Proof.
  intros [Hi [Hs [Hl [Hf [C [E1 [E2 [H1 [H2 [HE1 HE2]]]]]]]]]].
  unfold fasta.Read. rewrite H1, H2, Hi, Hs, Hl, Hf.
  apply fasta_Read_loop_same_lines; assumption.
Qed.

Lemma alignio_Read_loop_same_lines (fuel : nat) :
  forall (rd1 rd2 : fasta.Reader) (a : alignment.Alignment seq.Seq),
    same_lines rd1 rd2 ->
    option_map fst (alignio.Read_loop fuel rd1 a)
    = option_map fst (alignio.Read_loop fuel rd2 a).
Proof.
  induction fuel as [|fuel IH]; intros rd1 rd2 a H; [reflexivity|].
  cbn [alignio.Read_loop]. unfold seqio.Read, fasta.Reader_seqio.
  destruct (fasta_Read_same_lines rd1 rd2 H) as [Hres Hrd].
  destruct (fasta.Read rd1) as [res1 r1]. destruct (fasta.Read rd2) as [res2 r2].
  cbn [fst snd] in Hres, Hrd. subst res2.
  destruct res1 as [s|e|msg].
  - apply IH. exact Hrd.
  - destruct (error_eqb e EOF); reflexivity.
  - reflexivity.
Qed.

(** X13.  The FASTA reader never reads the bytes after the last newline of
    its stream: for every stream [s], adding bytes without a newline at its
    end changes nothing in the collection a bulk read returns.  A last body
    line that lacks its newline is lost. *)
Theorem fasta_unterminated_line_is_dropped (s tail : list byte) (fuel : nat) :
  Forall (fun c => c <> LF) tail ->
  option_map fst (alignio.Read fuel (fasta.NewReader (bufio.NewReader_bytes (s ++ tail))))
  = option_map fst (alignio.Read fuel (fasta.NewReader (bufio.NewReader_bytes s))).
Proof.
  intros Ht. unfold alignio.Read. apply alignio_Read_loop_same_lines.
  destruct (bytes_results_split s []) as [C [p [H1 H2]]].
  unfold fasta.NewReader, bufio.NewReader_bytes, same_lines.
  cbn [fasta.IDPrefix fasta.SeqPrefix fasta.last fasta.r bufio.script bufio.fail].
  repeat split.
  exists C, (rest_result (p ++ tail)), (rest_result p).
  split; [apply (H2 tail Ht)|]. split; [exact H1|].
  split; apply error_end_rest_result.
Qed.

(** X13 on ">a\nAC\n" followed by "GT" without a newline: the record read is
    [a] with body [AC]. *)
Lemma fasta_unterminated_line_is_dropped_witness :
  option_map fst
    (alignio.Read 3 (fasta.NewReader (bufio.NewReader_bytes (text [">a"; "AC"]%string ++ bs "GT"))))
  = Some (Ok [seq.mkSeq (bs "a") (bs "AC")]).
Proof.
  refine (eq_trans
            (fasta_unterminated_line_is_dropped (text [">a"; "AC"]%string) (bs "GT") 3 _) _).
  - repeat constructor; discriminate.
  - vm_compute. reflexivity.
Defined.

(** ** Header lines of the FASTQ reader *)

(** X14.  [readHeader] splits a header line at its first blank or tab: what
    stands between the sigil and that byte is the name, and everything after
    that byte, further blanks included, is the description.  A header line
    without blank or tab gives the name only, and the description stays that
    of the template. *)
Theorem fastq_readHeader_splits_at_first_blank
    (codec : alphabet.Codec) (t : fastq.Sequence) (name desc : list byte) (b : byte) :
  Forall (fun c => c <> " "%char /\ c <> "009"%char) name ->
  b = " "%char \/ b = "009"%char ->
  fastq.readHeader t ("@"%char :: name ++ b :: desc)
  = fastq.mkSequence name desc (fastq.QLetters t) (fastq.Encoder t)
  /\ fastq.readHeader t ("@"%char :: name)
     = fastq.mkSequence name (fastq.Description t) (fastq.QLetters t) (fastq.Encoder t).
Proof.
  intros Hname Hb.
  assert (Hn : Forall (fun c => existsb (byte_eqb c) blanks = false) name).
  { eapply Forall_impl; [|exact Hname]. intros c [H1 H2]. cbn [blanks bs existsb
      list_ascii_of_string].
    apply byte_eqb_neq in H1, H2. rewrite H1, H2. reflexivity. }
  unfold fastq.readHeader, bytes.IndexAny. cbn [bytes.IndexAny_from].
  change (existsb (byte_eqb "@"%char) blanks) with false. cbv iota.
  split.
  - rewrite (IndexAny_from_skip blanks name (b :: desc) (0 + 1) Hn).
    cbn [bytes.IndexAny_from].
    replace (existsb (byte_eqb b) blanks) with true
      by (destruct Hb as [-> | ->]; reflexivity).
    replace (0 + 1 + len name <? 0) with false
      by (symmetry; apply Z.ltb_ge; unfold len; lia).
    unfold fastq.SetDescription, fastq.SetName, fastq.Clone.
    cbn [fastq.Name fastq.Description fastq.QLetters fastq.Encoder].
    f_equal.
    + unfold fastq.sub, len.
      replace (Z.to_nat (0 + 1 + Z.of_nat (length name)) - 1)%nat
        with (length name + 0)%nat by lia.
      cbn [skipn]. rewrite firstn_app_2. cbn [firstn]. apply app_nil_r.
    + unfold slice_from, len.
      replace (Z.to_nat (0 + 1 + Z.of_nat (length name) + 1))
        with (S (length name + 1)) by lia.
      cbn [skipn]. rewrite skipn_app, skipn_all2 by lia.
      replace (length name + 1 - length name)%nat with 1%nat by lia.
      reflexivity.
  - rewrite <- (app_nil_r name) at 1.
    rewrite (IndexAny_from_skip blanks name [] (0 + 1) Hn). reflexivity.
Qed.

(** X14 on "@read1 first read" over a template described as "old". *)
Lemma fastq_readHeader_splits_at_first_blank_witness :
  fastq.readHeader (phred33.record "" "old" "" [])
    ("@"%char :: bs "read1" ++ " "%char :: bs "first read")
  = phred33.record "read1" "first read" "" []
  /\ fastq.readHeader (phred33.record "" "old" "" []) ("@"%char :: bs "read1")
     = phred33.record "read1" "old" "" [].
Proof.
  refine (fastq_readHeader_splits_at_first_blank phred33.codec
            (phred33.record "" "old" "" []) (bs "read1") (bs "first read") " "%char _ _).
  - repeat constructor; discriminate.
  - left. reflexivity.
Defined.



(** ** The bulk write of the collection adapter *)

(** X16.  When the wrapped writer fails on an element after it succeeded on
    the elements before it, the bulk write returns that error and the sum of
    the counts returned so far, the count of the failed write included; the
    elements after it are not written. *)
Theorem alignio_Write_stops_at_first_error
    (W Sq : Type) (writer : seqio.Writer W Sq)
    (w : W) (a : list Sq) (n : Z) (w1 : W) (s : Sq) (c : Z) (e : error) (w2 : W)
    (rest : list Sq) :
  writes w a n w1 ->
  seqio.Write w1 s = ((c, Some e), w2) ->
  alignio.Write w (a ++ s :: rest) = (Ok (n + c, Some e), w2).
Proof.
  intros Hws Hfail. unfold alignio.Write.
  rewrite (alignio_Write_loop_abort w a n w1 s c e w2 rest Hws Hfail 0). reflexivity.
Qed.

(** X16 over a FASTQ writer whose sink has room for fifteen bytes: the first
    record (eleven bytes) fits, the second falls short after four bytes, the
    third is not written. *)
Lemma alignio_Write_stops_at_first_error_witness :
  alignio.Write (fastq.NewWriter (io.mkWriter [] (Some 15%nat)))
    ([phred33.record "a" "" "AC" [0; 0]%nat]
     ++ phred33.record "b" "" "GT" [0; 0]%nat :: [phred33.record "c" "" "A" [0%nat]])
  = (Ok (11 + 4, Some io.ErrShortWrite),
     fastq.mkWriter
       (io.mkWriter (text ["@a"; "AC"; "+"; "!!"]%string ++ bs "@b" ++ LF :: bs "G")
          (Some 0%nat)) false).
Proof.
  refine (alignio_Write_stops_at_first_error _ _ _ _ _ 11 _ _ 4 _ _ _ _ _).
  - change 11 with (11 + 0). eapply writes_cons; [vm_compute; reflexivity|apply writes_nil].
  - vm_compute. reflexivity.
Defined.

(** ** Round trip with the encodings the two sides resolve *)

Section TwoEncodings.

Context {codec : alphabet.Codec}.

(** Reading with one encoding the text written with another. *)
Lemma fastq_Read_record_two_encodings (qid : bool) (encw encr : alphabet.Encoding)
      (s t : fastq.Sequence) (rest : list byte) :
  representable encw s ->
  fastq.QLetters t = [] ->
  fastq.Description t = [] ->
  exists r,
    fastq.Read_loop t encr (bufio.line_results [] (record_bytes qid encw s ++ rest))
      AtEOF fastq.init
    = (Ok r, bufio.mkReader (bufio.line_results [] rest) AtEOF)
    /\ fastq.Name r = fastq.Name s
    /\ fastq.Description r = fastq.Description s
    /\ map (fun q => alphabet.L q) (fastq.QLetters r)
       = map (fun q => alphabet.L q) (fastq.QLetters s)
    /\ map (fun q => alphabet.Q q) (fastq.QLetters r)
       = map (fun q => alphabet.DecodeToQphred encr (alphabet.Encode (alphabet.Q q) encw))
           (fastq.QLetters s).
Proof.
  intros Hrep Ht Htd.
  pose proof Hrep as [Hname [Hdesc [Hlast [Hne [Hlet [Hfirst Hqual]]]]]].
  set (hl := "@"%char :: header_text s).
  set (ll := map (fun q => alphabet.L q) (fastq.QLetters s)).
  set (sl := "+"%char :: (if qid then header_text s else [])).
  set (ql := map (fun q => alphabet.Encode (alphabet.Q q) encw) (fastq.QLetters s)).
  assert (Hhl : clean hl) by (apply (clean_header encw s "@"%char Hrep); reflexivity).
  assert (Hsl : clean sl).
  { unfold sl. destruct qid.
    - apply (clean_header encw s "+"%char Hrep). reflexivity.
    - apply clean_plain. constructor; [reflexivity|constructor]. }
  destruct (fastq.QLetters s) as [|q0 qs] eqn:Eq; [contradiction|].
  assert (Hll_plain : Forall (fun x => bytes.isSpace x = false) ll).
  { unfold ll. apply Forall_map. eapply Forall_impl; [|exact Hlet].
    intros q. apply graphic_not_space. }
  assert (Hql_plain : Forall (fun x => bytes.isSpace x = false) ql).
  { unfold ql. apply Forall_map. eapply Forall_impl; [|exact Hqual].
    intros q. apply graphic_not_space. }
  assert (Hll : clean ll) by (apply clean_plain; exact Hll_plain).
  assert (Hql : clean ql) by (apply clean_plain; exact Hql_plain).
  destruct (Hfirst q0 eq_refl) as [Hat Hplus].
  rewrite record_bytes_lines. rewrite Eq. fold hl ll sl ql.
  destruct (clean_line hl (ll ++ LF :: sl ++ LF :: ql ++ LF :: rest) Hhl) as [E1 T1].
  destruct (clean_line ll (sl ++ LF :: ql ++ LF :: rest) Hll) as [E2 T2].
  destruct (clean_line sl (ql ++ LF :: rest) Hsl) as [E3 T3].
  destruct (clean_line ql rest Hql) as [E4 T4].
  rewrite E1, E2, E3, E4. unfold whole.
  (* the header line *)
  rewrite fastq_Read_loop_cons.
  rewrite (on_line_header t encr fastq.init hl (header_text s) eq_refl T1).
  fold hl. cbn [fastq.seqBuff fastq.init].
  (* the letter line *)
  rewrite fastq_Read_loop_cons.
  rewrite (on_line_letters t encr
             (fastq.mkLocals [] hl [] (Some (fastq.readHeader t hl)) false)
             ll (alphabet.L q0) (map (fun q => alphabet.L q) qs) eq_refl T2 Hat Hplus).
  change (alphabet.L q0 :: map (fun q => alphabet.L q) qs) with ll.
  rewrite (strip_id ll Hll_plain).
  cbn [fastq.label fastq.l_t fastq.seqBuff].
  (* the separator line *)
  rewrite fastq_Read_loop_cons.
  rewrite (on_line_separator t encr
             (fastq.mkLocals [] hl (fastq.letters_of ll) (Some (fastq.readHeader t hl)) false)
             sl (if qid then header_text s else []) eq_refl);
    [|discriminate|exact T3].
  cbn [fastq.label fastq.seqBuff fastq.l_t].
  assert (Hsep : negb (bytes_eqb (if qid then header_text s else []) [])
                 && negb (bytes.Compare (slice_from hl 1)
                            (if qid then header_text s else []) =? 0) = false).
  { destruct qid; [|reflexivity].
    replace (bytes.Compare (slice_from hl 1) (header_text s) =? 0) with true
      by (symmetry; apply Compare_eqb; reflexivity).
    apply andb_false_r. }
  rewrite Hsep.
  (* the quality line *)
  rewrite fastq_Read_loop_cons.
  rewrite (on_line_quality t encr
             (fastq.mkLocals [] hl (fastq.letters_of ll) (Some (fastq.readHeader t hl)) true)
             ql (alphabet.Encode (alphabet.Q q0) encw)
             (map (fun q => alphabet.Encode (alphabet.Q q) encw) qs)
             (fastq.readHeader t hl) eq_refl eq_refl T4).
  change (alphabet.Encode (alphabet.Q q0) encw
          :: map (fun q => alphabet.Encode (alphabet.Q q) encw) qs) with ql.
  rewrite (strip_id ql Hql_plain). cbn [fastq.seqBuff].
  assert (Hlen : length ql = length (fastq.letters_of ll)).
  { unfold ql, ll, fastq.letters_of. rewrite !length_map. reflexivity. }
  rewrite len_eqb_length, Hlen, Nat.eqb_refl.
  eexists. split; [reflexivity|].
  unfold hl. rewrite (readHeader_written t s Hname).
  unfold fastq.AppendQLetters.
  cbn [fastq.Name fastq.Description fastq.QLetters fastq.Encoder].
  destruct (set_quals_spec encr (fastq.letters_of ll) ql Hlen) as [HL HQ].
  split; [reflexivity|]. split.
  { rewrite Htd. destruct (fastq.Description s); reflexivity. }
  rewrite Ht. cbn [app]. rewrite HL, HQ. split.
  - unfold fastq.letters_of. rewrite map_map. cbn [alphabet.L]. apply map_id.
  - unfold ql. rewrite map_map. reflexivity.
Qed.

End TwoEncodings.

(** X17.  Written by [fastq.Writer.Write] and read back by a reader made with
    [fastq.NewReader], a representable sequence comes back with its name,
    description and letters, and with each quality encoded with the encoding
    the writer resolves from the sequence (its own, or Sanger when it names
    none) and decoded with the encoding the reader resolves from its template
    (the template's, or [alphabet.None] when it names none).  The two
    defaults differ: between a sequence and a template that name no encoding
    the qualities are encoded as Sanger and decoded as raw bytes. *)
Theorem fastq_round_trip_resolved_encodings
    (codec : alphabet.Codec) (qid : bool) (s t : fastq.Sequence) (rest : list byte) :
  let encw :=
    match fastq.Encoder s with
    | Some e => e
    | None => alphabet.Sanger
    end in
  let encr :=
    match fastq.Encoder t with
    | Some e => e
    | None => alphabet.None_
    end in
  representable encw s ->
  fastq.QLetters t = [] ->
  fastq.Description t = [] ->
  exists w',
    fastq.Write (fastq.mkWriter io.unbounded qid) s
    = ((len (record_bytes qid encw s), None), w')
    /\ fastq.Read (fastq.NewReader (bufio.NewReader_line (io.out (fastq.w w') ++ rest)) t)
       = (Ok (read_as encw encr t s),
          fastq.mkReader (bufio.mkReader (bufio.line_results [] rest) AtEOF) t encr).
Proof.
  intros encw encr Hrep Ht Htd.
  destruct (fastq_Read_record_two_encodings qid encw encr s t rest Hrep Ht Htd)
    as [r [Hread [Hn [Hd [HL HQ]]]]].
  assert (He : fastq.Encoder r = fastq.Encoder t).
  { eapply (fastq_Read_loop_Encoder t encr AtEOF _ fastq.init r); [|exact Hread].
    intros s0 Hs0. discriminate Hs0. }
  assert (Hr : r = read_as encw encr t s).
  { destruct r as [rn rdesc rq re].
    cbn [fastq.Name fastq.Description fastq.QLetters fastq.Encoder] in *.
    unfold read_as. subst rn rdesc re. f_equal.
    apply (qletters_from_maps
             (fun q => alphabet.DecodeToQphred encr (alphabet.Encode (alphabet.Q q) encw))
             rq (fastq.QLetters s) HL HQ). }
  eexists. split; [apply (fastq_Write_unbounded [] qid s)|].
  unfold fastq.Read, fastq.NewReader, bufio.NewReader_line.
  cbn [fastq.r fastq.t fastq.enc fastq.w io.out bufio.script bufio.fail app].
  fold encr encw. rewrite Hread, Hr. reflexivity.
Qed.

(** X17 on a sequence and a template that name no encoding: the score 0 is
    written as '!' and read back as 33. *)
Lemma fastq_round_trip_resolved_encodings_witness :
  exists w',
    fastq.Write (fastq.mkWriter io.unbounded false)
      (fastq.mkSequence (bs "id") [] [alphabet.mkQLetter "A"%char 0%nat] None)
    = ((10, None), w')
    /\ fastq.Read
         (fastq.NewReader (bufio.NewReader_line (io.out (fastq.w w') ++ []))
            (fastq.mkSequence [] [] [] None))
       = (Ok (fastq.mkSequence (bs "id") [] [alphabet.mkQLetter "A"%char 33%nat] None),
          fastq.mkReader (bufio.mkReader [] AtEOF) (fastq.mkSequence [] [] [] None)
            phred33.Raw).
Proof.
  refine (fastq_round_trip_resolved_encodings phred33.codec false
            (fastq.mkSequence (bs "id") [] [alphabet.mkQLetter "A"%char 0%nat] None)
            (fastq.mkSequence [] [] [] None) [] _ eq_refl eq_refl).
  unfold representable. cbn [fastq.Name fastq.Description fastq.QLetters].
  split; [repeat constructor|].
  split; [constructor|].
  split; [reflexivity|].
  split; [discriminate|].
  split; [repeat constructor|].
  split; [intros q Hq; inversion Hq; subst q; split; discriminate|].
  repeat constructor.
Defined.

(** ** The FASTA reader and white space around lines *)

(** A trailing white-space byte does not change what [bytes.TrimSpace]
    returns. *)
Lemma TrimSpace_trailing_space (m : list byte) (c : byte) :
  bytes.isSpace c = true -> bytes.TrimSpace (m ++ [c]) = bytes.TrimSpace m.
Proof.
  intros Hc. unfold bytes.TrimSpace.
  induction m as [|a m IH].
  - simpl. rewrite Hc. reflexivity.
  - cbn [app bytes.TrimLeft]. destruct (bytes.isSpace a) eqn:Ha; [exact IH|].
    change (a :: m ++ [c]) with ((a :: m) ++ [c]).
    unfold bytes.TrimRight. rewrite rev_app_distr.
    cbn [rev app bytes.TrimLeft]. rewrite Hc. reflexivity.
Qed.

(** The test for a final carriage return in [fasta.Reader.Read] does not
    change the trimmed line. *)
Lemma fasta_CR_test_is_void (line : list byte) :
  bytes.TrimSpace
    (if (0 <? len line) && byte_eqb (List.last line LF) CR
     then removelast line else line)
  = bytes.TrimSpace line.
Proof.
  destruct ((0 <? len line) && byte_eqb (List.last line LF) CR) eqn:E; [|reflexivity].
  apply andb_true_iff in E. destruct E as [Hlen Hlast].
  destruct line as [|a l]; [discriminate Hlen|].
  destruct (exists_last (l := a :: l)) as [m [d Em]]; [discriminate|].
  rewrite Em in Hlast |- *. rewrite last_last in Hlast.
  rewrite removelast_last.
  apply Ascii.eqb_eq in Hlast. subst d.
  symmetry. apply TrimSpace_trailing_space. reflexivity.
Qed.

(** The loop body of [fasta.Reader.Read] depends on the line through its
    trimmed form only. *)
Lemma fasta_on_line_trimmed (idp seqp : list byte) (st : fasta.locals)
    (l1 l2 : list byte) :
  bytes.TrimSpace l1 = bytes.TrimSpace l2 ->
  fasta.on_line idp seqp st l1 = fasta.on_line idp seqp st l2.
Proof.
  intros H. unfold fasta.on_line. cbv zeta.
  rewrite !fasta_CR_test_is_void, H. reflexivity.
Qed.

Lemma fasta_Read_loop_same_trimmed (idp seqp : list byte) (fl1 fl2 : srcerr)
    (sc1 sc2 : list bufio.BytesResult) :
  Forall2 same_trimmed sc1 sc2 ->
  forall st,
    fst (fasta.Read_loop idp seqp sc1 fl1 st) = fst (fasta.Read_loop idp seqp sc2 fl2 st)
    /\ same_text (snd (fasta.Read_loop idp seqp sc1 fl1 st))
                 (snd (fasta.Read_loop idp seqp sc2 fl2 st)).
Proof.
  induction 1 as [|[x1 e1] [x2 e2] sc1 sc2 Hxy Hrest IH]; intros st.
  - cbn [fasta.Read_loop]. destruct (fasta.on_error st) as [res last'].
    split; [reflexivity|]. repeat split. constructor.
  - unfold same_trimmed in Hxy. cbn [fst snd] in Hxy.
    destruct e1 as [e1|], e2 as [e2|]; try contradiction.
    + cbn [fasta.Read_loop]. destruct (fasta.on_error st) as [res last'].
      split; [reflexivity|]. repeat split. exact Hrest.
    + cbn [fasta.Read_loop].
      rewrite (fasta_on_line_trimmed idp seqp st x1 x2 Hxy).
      destruct (fasta.on_line idp seqp st x2) as [st'|st'].
      * apply IH.
      * split; [reflexivity|]. repeat split. exact Hrest.
Qed.

(** X18.  [fasta.Reader.Read] sees each line only with its leading and
    trailing white space removed; the test for a final carriage return
    changes nothing.  Two readers with the same prefixes and pending label,
    whose streams agree line by line up to such white space (for instance
    CR LF against LF line ends, or indented lines), return the same result,
    and are left in states that agree in the same way, so that all later
    reads agree as well. *)
Theorem fasta_Read_up_to_surrounding_space (rd1 rd2 : fasta.Reader) :
  same_text rd1 rd2 ->
  fst (fasta.Read rd1) = fst (fasta.Read rd2)
  /\ same_text (snd (fasta.Read rd1)) (snd (fasta.Read rd2)).
Proof.
  intros [Hi [Hs [Hl Hsc]]]. unfold fasta.Read.
  rewrite Hi, Hs, Hl.
  apply fasta_Read_loop_same_trimmed. exact Hsc.
Qed.

(** X18 on ">a\r\nAC\r\n>b\r\n" against ">a\n  AC \n>b\n": both reads return
    the record "a" with body "AC". *)
Lemma fasta_Read_up_to_surrounding_space_witness :
  let crlf := bs ">a" ++ [CR; LF] ++ bs "AC" ++ [CR; LF] ++ bs ">b" ++ [CR; LF] in
  let lf := bs ">a" ++ [LF] ++ bs "  AC " ++ [LF] ++ bs ">b" ++ [LF] in
  same_text (fasta.NewReader (bufio.NewReader_bytes crlf))
            (fasta.NewReader (bufio.NewReader_bytes lf))
  /\ fst (fasta.Read (fasta.NewReader (bufio.NewReader_bytes crlf)))
     = Ok (seq.New (Some (bs "a")) (bs "AC"))
  /\ fst (fasta.Read (fasta.NewReader (bufio.NewReader_bytes crlf)))
     = fst (fasta.Read (fasta.NewReader (bufio.NewReader_bytes lf))).
Proof.
  cbv zeta.
  assert (H : same_text
                (fasta.NewReader
                   (bufio.NewReader_bytes
                      (bs ">a" ++ [CR; LF] ++ bs "AC" ++ [CR; LF] ++ bs ">b" ++ [CR; LF])))
                (fasta.NewReader
                   (bufio.NewReader_bytes
                      (bs ">a" ++ [LF] ++ bs "  AC " ++ [LF] ++ bs ">b" ++ [LF])))).
  { repeat split. vm_compute. repeat constructor. }
  split; [exact H|].
  split; [vm_compute; reflexivity|].
  exact (proj1 (fasta_Read_up_to_surrounding_space _ _ H)).
Defined.
